(** * django-lexorank: ranked models, scheduled rebalancing and the
      rebalance command, embedded from

      - django_lexorank/models/ranked_model.py        ([RankedModel])
      - django_lexorank/models/scheduled_rebalancing.py ([ScheduledRebalancing])
      - django_lexorank/management/commands/base_rebalance.py ([Command])

    Python values are modelled as follows.  A rank is a [string]; a model
    instance is a record holding its primary key, its rank and, for every
    grouping field, the string form of the related object's primary key; a
    table is a list of rows; a keyword dictionary is a [gmap string string];
    a raised exception is the [Raise] branch of [result]; code that reads or
    writes the database threads a [DB] value and keeps it when it raises
    (unless it runs under [transaction.atomic], which restores it). *)

From Stdlib Require Import String Ascii List Bool Arith Lia.
From Stdlib Require Import OrdersEx.
From stdpp Require Import base option list gmap strings sorting.

Local Open Scope string_scope.
Local Open Scope list_scope.

(** ** Exceptions and results *)

Inductive exn : Type :=
| RebalancingRequiredException
| AttributeError
| TypeError
| IndexError
| ValueError
| DoesNotExist
| MultipleObjectsReturned
| DatabaseError
| PyException (msg : string)
| OtherError (code : nat).

Inductive result (A : Type) : Type :=
| Ok (a : A)
| Raise (e : exn).
Arguments Ok {A} a.
Arguments Raise {A} e.

Definition rbind {A B} (r : result A) (k : A -> result B) : result B :=
  match r with
  | Ok a => k a
  | Raise e => Raise e
  end.

Fixpoint rmapM {A B} (f : A -> result B) (l : list A) : result (list B) :=
  match l with
  | [] => Ok []
  | x :: xs => rbind (f x) (fun y => rbind (rmapM f xs) (fun ys => Ok (y :: ys)))
  end.

(** ** Python string helpers: [str.join] and [str.split] *)

(** [sep.join(parts)]. *)
Fixpoint join (sep : string) (parts : list string) : string :=
  match parts with
  | [] => ""
  | [p] => p
  | p :: rest => p ++ sep ++ join sep rest
  end.

(** [s.split(sep)] for a one-character separator: the pieces between the
    occurrences of [sep]; never the empty list. *)
Fixpoint split (sep : ascii) (s : string) : list string :=
  match s with
  | EmptyString => [EmptyString]
  | String c s' =>
      if Ascii.eqb c sep then EmptyString :: split sep s'
      else match split sep s' with
           | p :: ps => String c p :: ps
           | [] => [String c EmptyString]
           end
  end.

(** [sep not in s]. *)
Fixpoint contains (sep : ascii) (s : string) : bool :=
  match s with
  | EmptyString => false
  | String c s' => Ascii.eqb c sep || contains sep s'
  end.

(** Python truthiness of an optional string: [None] and [""] are falsy. *)
Definition truthy (r : option string) : bool :=
  match r with
  | Some (String _ _) => true
  | _ => false
  end.

(** ** Data model *)

(** An instance (and a stored row) of a concrete subclass of [RankedModel].
    [attrs] maps each grouping field [f] to [str(getattr(self, f).pk)]: the
    code only ever compares related objects by primary key and serialises
    them with [str].  A grouping field without an entry stands for a field
    that holds no related object.  A rank is a string over the ASCII
    alphabet of the rank algebra, one [ascii] per character. *)
Record RankedItem : Type := mkItem {
  pk : nat;
  rank : string;
  attrs : gmap string string
}.

(** A row of [ScheduledRebalancing] (scheduled_rebalancing.py, lines 3-7). *)
Record ScheduledRebalancing : Type := mkScheduled {
  model : string;
  with_respect_to : string;
  scheduled_at : nat
}.

(** The class-level data of a concrete subclass: [_meta.model_name] and the
    class attribute [order_with_respect_to : Optional[List[str]]]. *)
Record ModelClass : Type := mkClass {
  model_name : string;
  order_with_respect_to : option (list string)
}.

(** The database: the table of the ranked model and the table of
    scheduled rebalancings. *)
Record DB : Type := mkDB {
  items : list RankedItem;
  scheduled : list ScheduledRebalancing
}.

Definition set_items (its : list RankedItem) (db : DB) : DB :=
  mkDB its (scheduled db).
Definition set_scheduled (sch : list ScheduledRebalancing) (db : DB) : DB :=
  mkDB (items db) sch.
Definition set_rank (r : string) (o : RankedItem) : RankedItem :=
  mkItem (pk o) r (attrs o).

(** [SEPARATOR = ":"] (line 26). *)
Definition SEPARATOR_char : ascii := ":"%char.
Definition SEPARATOR : string := String SEPARATOR_char EmptyString.

(** Truthiness of [order_with_respect_to]: [None] and [[]] are falsy. *)
Definition wrt_fields (cls : ModelClass) : list string :=
  match order_with_respect_to cls with
  | Some fs => fs
  | None => []
  end.

(** [getattr(self, field)], identified by the related object's
    [str(pk)]; a missing attribute raises. *)
Definition getattr_pk (self : RankedItem) (field : string) : result string :=
  match attrs self !! field with
  | Some v => Ok v
  | None => Raise AttributeError
  end.

(** ** The partition key and its serialisation (lines 64-98) *)

Fixpoint kwargs_loop (self : RankedItem) (fields : list string)
    (acc : gmap string string) : result (gmap string string) :=
  match fields with
  | [] => Ok acc
  | f :: fs => rbind (getattr_pk self f) (fun v => kwargs_loop self fs (<[f := v]> acc))
  end.

(** [_with_respect_to_kwargs] (lines 64-71).  The dictionary maps each
    grouping field to the related object, written here as that object's
    [str(pk)].  The source reads [getattr(self, field)] without [.pk]: the
    definition follows it for a field that holds a related object, the only
    case in which the properties below use it; a field holding [None] yields
    an entry in the source and [AttributeError] here. *)
Definition _with_respect_to_kwargs (cls : ModelClass) (self : RankedItem)
    : result (gmap string string) :=
  kwargs_loop self (wrt_fields cls) ∅.

(** [_with_respect_to_value] (lines 73-78). *)
Definition _with_respect_to_value (cls : ModelClass) (self : RankedItem)
    : result (list string) :=
  rmapM (getattr_pk self) (wrt_fields cls).

(** [_with_respect_to_value_key] (lines 80-85). *)
Definition _with_respect_to_value_key (cls : ModelClass) (self : RankedItem)
    : result string :=
  rbind (_with_respect_to_value cls self) (fun t => Ok (join SEPARATOR t)).

Fixpoint reverse_loop (fields values : list string) (idx : nat)
    (acc : gmap string string) : result (gmap string string) :=
  match fields with
  | [] => Ok acc
  | f :: fs =>
      match values !! idx with
      | Some v => reverse_loop fs values (S idx) (<[f := v]> acc)
      | None => Raise IndexError
      end
  end.

(** [reverse_with_respect_to_value_key] (lines 87-98).  Iterating
    [cls.order_with_respect_to] when it is [None] raises [TypeError]. *)
Definition reverse_with_respect_to_value_key (cls : ModelClass) (key : string)
    : result (gmap string string) :=
  let values := split SEPARATOR_char key in
  match order_with_respect_to cls with
  | None => Raise TypeError
  | Some fields => reverse_loop fields values 0 ∅
  end.

(** ** Database actions *)

(** A database action: it may raise, and it returns the database as it
    left it either way. *)
Definition M (A : Type) : Type := DB -> result A * DB.

Definition ret {A} (a : A) : M A := fun db => (Ok a, db).
Definition raise {A} (e : exn) : M A := fun db => (Raise e, db).
Definition lift {A} (r : result A) : M A := fun db => (r, db).
Definition bind {A B} (m : M A) (k : A -> M B) : M B :=
  fun db =>
    match m db with
    | (Ok a, db') => k a db'
    | (Raise e, db') => (Raise e, db')
    end.

Notation "x <~ m ;; k" := (bind m (fun x => k))
  (at level 100, m at next level, right associativity).
Notation "m ;;; k" := (bind m (fun _ => k))
  (at level 100, right associativity).

(** [transaction.atomic]: an exception leaving the block rolls the
    database back to what it was on entry. *)
Definition atomic {A} (m : M A) : M A :=
  fun db =>
    match m db with
    | (Ok a, db') => (Ok a, db')
    | (Raise e, _) => (Raise e, db)
    end.

(** ** Querysets over the ranked table *)

(** [objects.filter] with keyword arguments: every keyword must match
    the row.  The keywords are grouping fields and a value is compared with
    the [str(pk)] of the row's related object.  This is what the query does
    for the values the code passes it in normal use: a related object, or
    the [str(pk)] that [_with_respect_to_value] wrote into a key (the query
    parses it back into the same primary key).  For other strings the query
    may parse the value into a primary key printed differently, or raise. *)
Definition matches (kw : gmap string string) (o : RankedItem) : bool :=
  bool_decide (map_Forall (fun f v => attrs o !! f = Some v) kw).

Definition objects_filter (kw : gmap string string) (rows : list RankedItem)
    : list RankedItem :=
  List.filter (matches kw) rows.

Definition rank_le (a b : RankedItem) : Prop :=
  Is_true (String.leb (rank a) (rank b)).
Definition rank_ge (a b : RankedItem) : Prop := rank_le b a.

Global Instance rank_le_dec a b : Decision (rank_le a b).
Proof. unfold rank_le. apply _. Defined.
Global Instance rank_ge_dec a b : Decision (rank_ge a b).
Proof. unfold rank_ge. apply _. Defined.

(** [order_by("rank")] and [order_by("-rank")]. *)
Definition order_by_rank (rows : list RankedItem) : list RankedItem :=
  merge_sort rank_le rows.
Definition order_by_rank_desc (rows : list RankedItem) : list RankedItem :=
  merge_sort rank_ge rows.

(** [rank__gt], [rank__lt], [rank__length__gte]. *)
Definition rank_gt (bound : string) (o : RankedItem) : bool := String.ltb bound (rank o).
Definition rank_lt (bound : string) (o : RankedItem) : bool := String.ltb (rank o) bound.
Definition rank_length_gte (n : nat) (o : RankedItem) : bool :=
  Nat.leb n (String.length (rank o)).

Definition has_pk (p : nat) (o : RankedItem) : bool := Nat.eqb (pk o) p.

(** [Model.save]: with [update_fields=["rank"]] it updates the rank column
    of the row with this primary key and raises when no row was affected;
    without [update_fields] it updates the whole row or inserts it. *)
Definition Model_save (only_rank : bool) (self : RankedItem) : M unit :=
  fun db =>
    if existsb (has_pk (pk self)) (items db) then
      (Ok tt,
       set_items
         (map (fun o =>
                 if has_pk (pk self) o
                 then (if only_rank then set_rank (rank self) o else self)
                 else o)
              (items db)) db)
    else if only_rank then (Raise DatabaseError, db)
    else (Ok tt, set_items (items db ++ [self]) db).

(** [refresh_from_db]: reload the row with this primary key. *)
Definition refresh_from_db (self : RankedItem) : M RankedItem :=
  fun db =>
    match List.filter (has_pk (pk self)) (items db) with
    | [] => (Raise DoesNotExist, db)
    | [row] => (Ok row, db)
    | _ => (Raise MultipleObjectsReturned, db)
    end.

(** [if obj: obj.refresh_from_db()] on an optional boundary object (a model
    instance is always truthy). *)
Definition refresh_opt (o : option RankedItem) : M (option RankedItem) :=
  match o with
  | None => ret None
  | Some obj => obj' <~ refresh_from_db obj ;; ret (Some obj')
  end.

(** [bulk_update(objs, ["rank"])]: each object's rank is written to the row
    with its primary key. *)
Definition bulk_update (objs : list RankedItem) : M unit :=
  fun db =>
    (Ok tt,
     set_items
       (map (fun row =>
               match List.find (has_pk (pk row)) objs with
               | Some o => set_rank (rank o) row
               | None => row
               end)
            (items db)) db).

(** ** The table of scheduled rebalancings *)

Definition same_schedule (m w : string) (r : ScheduledRebalancing) : bool :=
  String.eqb (model r) m && String.eqb (with_respect_to r) w.

(** [ScheduledRebalancing.objects.update_or_create(model=m,
    with_respect_to=w)] with no [defaults]: the row matching the lookup is
    fetched, or created when there is none ([scheduled_at] is
    [auto_now_add], so it is set to the current time on creation only); a
    fetched row is saved back with nothing to change. *)
Definition update_or_create (now : nat) (m w : string) : M unit :=
  fun db =>
    match List.filter (same_schedule m w) (scheduled db) with
    | [] => (Ok tt, set_scheduled (scheduled db ++ [mkScheduled m w now]) db)
    | [_] => (Ok tt, db)
    | _ => (Raise MultipleObjectsReturned, db)
    end.

(** ** RankedModel (ranked_model.py) *)

Section LexoRank.

(** The rank algebra [LexoRank] (django_lexorank/lexorank.py) is imported
    by ranked_model.py (line 10) and defined outside the files modelled
    here; the model is parametric in its three class methods and its
    constant.  Any of the methods may raise. *)
Variable get_lexorank_in_between :
  option string -> option string -> nat -> result string.
Variable get_min_rank : nat -> result string.
Variable increment_rank : string -> nat -> result string.
Variable rebalancing_length : nat.

(** The ranks a rebalancing pass hands out when it starts from [r] and
    makes [len] turns with [objects_count = n]: [increment_rank] applied
    once, twice, ... to [r]. *)
Fixpoint rank_chain (r : string) (n len : nat) : result (list string) :=
  match len with
  | 0 => Ok []
  | S len' =>
      rbind (increment_rank r n) (fun r' =>
      rbind (rank_chain r' n len') (fun ks => Ok (r' :: ks)))
  end.

Section RankedModel.

Variable cls : ModelClass.

(** The outcome of evaluating the attribute chain [self._model.objects]
    on an instance.  The instance methods below are written against
    it; [src_model_objects], after this section, is what the source
    gives. *)
Variable self_model_objects : result unit.

(** [_objects_count] (lines 100-102). *)
Definition _objects_count (self : RankedItem) : M nat :=
  _ <~ lift self_model_objects ;;
  kw <~ lift (_with_respect_to_kwargs cls self) ;;
  fun db => (Ok (length (objects_filter kw (items db))), db).

(** [rebalancing_required] (lines 292-299). *)
Definition rebalancing_required (self : RankedItem) : M bool :=
  _ <~ lift self_model_objects ;;
  kw <~ lift (_with_respect_to_kwargs cls self) ;;
  fun db =>
    (Ok (existsb (rank_length_gte rebalancing_length)
           (objects_filter kw (items db))), db).

(** [rebalancing_scheduled] (lines 301-309). *)
Definition rebalancing_scheduled (self : RankedItem) : M bool :=
  key <~ lift (_with_respect_to_value_key cls self) ;;
  fun db =>
    (Ok (existsb (same_schedule (model_name cls) key) (scheduled db)), db).

(** [schedule_rebalancing] (lines 347-351); [now] is the clock reading
    during the call. *)
Definition schedule_rebalancing (now : nat) (self : RankedItem) : M unit :=
  key <~ lift (_with_respect_to_value_key cls self) ;;
  update_or_create now (model_name cls) key.

(** [save] (lines 49-58), under [@transaction.atomic]. *)
Definition save (now : nat) (only_rank : bool) (self : RankedItem) : M unit :=
  atomic
    (Model_save only_rank self ;;;
     required <~ rebalancing_required self ;;
     if required then schedule_rebalancing now self else ret tt).

(** [_move_to] (lines 104-107). *)
Definition _move_to (now : nat) (self : RankedItem) (r : string)
    : M RankedItem :=
  let self' := set_rank r self in
  save now true self' ;;;
  ret self'.

(** The loop of [rebalance] and [rebalance_by_scheduled] (lines 241-247
    and 265-271): the rank is incremented first and then assigned.
    [count] is how the loop obtains [objects_count] on each turn. *)
Fixpoint rebalance_loop (count : M nat) (r : string)
    (qs : list RankedItem) : M (list RankedItem) :=
  match qs with
  | [] => ret []
  | obj :: rest =>
      n <~ count ;;
      r' <~ lift (increment_rank r n) ;;
      updated <~ rebalance_loop count r' rest ;;
      ret (set_rank r' obj :: updated)
  end.

(** [post_rebalance] and [post_rebalance_by_scheduled] (lines 279-290):
    hooks whose body is [pass]. *)
Definition post_rebalance (self : RankedItem) : M unit := ret tt.
Definition post_rebalance_by_scheduled (objs : list RankedItem) : M unit :=
  ret tt.

(** [rebalance] (lines 251-277). *)
Definition rebalance (self : RankedItem) : M RankedItem :=
  atomic
    (_ <~ lift self_model_objects ;;
     kw <~ lift (_with_respect_to_kwargs cls self) ;;
     n <~ _objects_count self ;;
     r <~ lift (get_min_rank n) ;;
     qs <~ (fun db => (Ok (order_by_rank (objects_filter kw (items db))), db)) ;;
     objects_to_update <~ rebalance_loop (_objects_count self) r qs ;;
     _ <~ lift self_model_objects ;;
     bulk_update objects_to_update) ;;;
  self' <~ refresh_from_db self ;;
  post_rebalance self' ;;;
  ret self'.

(** [rebalance_by_scheduled] (lines 222-249), a class method: it goes
    through [cls.objects]. *)
Definition rebalance_by_scheduled (with_respect_to_value_key : string)
    : M unit :=
  filter_kwargs <~
    lift (reverse_with_respect_to_value_key cls with_respect_to_value_key) ;;
  object_count <~
    (fun db => (Ok (length (objects_filter filter_kwargs (items db))), db)) ;;
  objects_to_update <~
    atomic
      (qs <~ (fun db =>
                (Ok (order_by_rank (objects_filter filter_kwargs (items db))),
                 db)) ;;
       r <~ lift (get_min_rank object_count) ;;
       objects_to_update <~ rebalance_loop (ret object_count) r qs ;;
       bulk_update objects_to_update ;;;
       ret objects_to_update) ;;
  post_rebalance_by_scheduled objects_to_update.

(** [queryset_wrapper] (lines 176-178) followed by [.exists()], for
    the keyword arguments [place_between] builds. *)
Definition queryset_wrapper_exists (kw : gmap string string)
    (gt lt : option string) : M bool :=
  fun db =>
    (Ok (existsb
           (fun o =>
              match gt with Some b => rank_gt b o | None => true end
              && match lt with Some b => rank_lt b o | None => true end)
           (objects_filter kw (items db))), db).

(** [get_previous_object] (lines 180-191). *)
Definition get_previous_object (self : RankedItem) : M (option RankedItem) :=
  _ <~ lift self_model_objects ;;
  kw <~ lift (_with_respect_to_kwargs cls self) ;;
  fun db =>
    (Ok (head (order_by_rank_desc
                 (List.filter (rank_lt (rank self))
                    (objects_filter kw (items db))))), db).

(** [get_next_object] (lines 201-212). *)
Definition get_next_object (self : RankedItem) : M (option RankedItem) :=
  _ <~ lift self_model_objects ;;
  kw <~ lift (_with_respect_to_kwargs cls self) ;;
  fun db =>
    (Ok (head (order_by_rank
                 (List.filter (rank_gt (rank self))
                    (objects_filter kw (items db))))), db).

(** The guard of the four class methods of lines 311-345:
    [if cls.order_with_respect_to and not with_respect_to_kwargs]. *)
Definition kwargs_missing (kw : gmap string string) : bool :=
  match wrt_fields cls with
  | [] => false
  | _ :: _ => bool_decide (kw = ∅)
  end.

(** [get_first_object] (lines 311-317).  [with_respect_to_kwargs] is a
    required parameter: [None] stands for a call that does not pass
    it, which Python rejects with [TypeError]. *)
Definition get_first_object (with_respect_to_kwargs : option (gmap string string))
    : M (option RankedItem) :=
  match with_respect_to_kwargs with
  | None => raise TypeError
  | Some kw =>
      if kwargs_missing kw then raise ValueError
      else fun db => (Ok (head (order_by_rank (objects_filter kw (items db)))), db)
  end.


(** [get_last_object] (lines 330-336). *)
Definition get_last_object (with_respect_to_kwargs : option (gmap string string))
    : M (option RankedItem) :=
  match with_respect_to_kwargs with
  | None => raise TypeError
  | Some kw =>
      if kwargs_missing kw then raise ValueError
      else fun db =>
             (Ok (head (order_by_rank_desc (objects_filter kw (items db)))), db)
  end.


(** What [_wrapper_get_lexorank_in_between] hands back: the tuple
    [(before_obj, rank, after_obj)], or Python's [None] when the
    function ends without reaching a [return]. *)
Definition wrapped : Type :=
  option (option RankedItem * string * option RankedItem).

(** [_wrapper_get_lexorank_in_between] (lines 149-174).  The [return]
    sits in the [else] clause of the [try], which runs only when the
    [try] body raised nothing; after the [except
    RebalancingRequiredException] handler has run, control leaves the
    [try] statement and the function ends. *)
Definition _wrapper_get_lexorank_in_between (self : RankedItem)
    (before_obj after_obj : option RankedItem) : M wrapped :=
  let previous_rank := option_map rank before_obj in
  let next_rank := option_map rank after_obj in
  fun db =>
    match (n <~ _objects_count self ;;
           lift (get_lexorank_in_between previous_rank next_rank n)) db with
    | (Ok r, db1) => (Ok (Some (before_obj, r, after_obj)), db1)
    | (Raise RebalancingRequiredException, db1) =>
        (self' <~ rebalance self ;;
         before_obj' <~ refresh_opt before_obj ;;
         after_obj' <~ refresh_opt after_obj ;;
         n <~ _objects_count self' ;;
         _ <~ lift (get_lexorank_in_between
                      (option_map rank before_obj')
                      (option_map rank after_obj') n) ;;
         ret None) db1
    | (Raise e, db1) => (Raise e, db1)
    end.

(** Unpacking [a, b, c = value]: [None] cannot be unpacked. *)
Definition unpack (w : wrapped)
    : M (option RankedItem * string * option RankedItem) :=
  match w with
  | Some t => ret t
  | None => raise TypeError
  end.

(** [place_on_top] (lines 109-114): [get_first_object] is called with
    no argument. *)
Definition place_on_top (now : nat) (self : RankedItem) : M RankedItem :=
  first_object <~ get_first_object None ;;
  w <~ _wrapper_get_lexorank_in_between self None first_object ;;
  t <~ unpack w ;;
  _move_to now self (snd (fst t)).

(** [place_on_bottom] (lines 116-121): [get_last_object] is called with
    no argument. *)
Definition place_on_bottom (now : nat) (self : RankedItem) : M RankedItem :=
  last_object <~ get_last_object None ;;
  w <~ _wrapper_get_lexorank_in_between self last_object None ;;
  t <~ unpack w ;;
  _move_to now self (snd (fst t)).

(** [place_after] (lines 123-127). *)
Definition place_after (now : nat) (self after_obj : RankedItem)
    : M RankedItem :=
  next_obj <~ get_next_object after_obj ;;
  w <~ _wrapper_get_lexorank_in_between self (Some after_obj) next_obj ;;
  t <~ unpack w ;;
  _move_to now self (snd (fst t)).

(** [place_before] (lines 129-134). *)
Definition place_before (now : nat) (self before_obj : RankedItem)
    : M RankedItem :=
  previous_obj <~ get_previous_object before_obj ;;
  w <~ _wrapper_get_lexorank_in_between self previous_obj (Some before_obj) ;;
  t <~ unpack w ;;
  _move_to now self (snd (fst t)).

(** The keyword arguments [rank__gt] and [rank__lt] of lines 141-144:
    a bound is added only when the rank is truthy. *)
Definition bound_of (o : option RankedItem) : option string :=
  let r := option_map rank o in
  if truthy r then r else None.

(** [place_between] (lines 136-147). *)
Definition place_between (now : nat) (self : RankedItem)
    (before_obj after_obj : option RankedItem) : M RankedItem :=
  w <~ _wrapper_get_lexorank_in_between self before_obj after_obj ;;
  t <~ unpack w ;;
  let before_obj' := fst (fst t) in
  let r := snd (fst t) in
  let after_obj' := snd t in
  kw <~ lift (_with_respect_to_kwargs cls self) ;;
  found <~ queryset_wrapper_exists kw (bound_of before_obj') (bound_of after_obj') ;;
  if found then raise (PyException "Not valid rank")
  else _move_to now self r.

End RankedModel.

(** ** The rebalance command (base_rebalance.py) *)

(** The loop of [resolve] (lines 16-17).  [self.model] is a class
    attribute that defaults to [None]; a subclass sets it. *)
Fixpoint resolve_loop (self_model : option ModelClass)
    (due : list ScheduledRebalancing) : M unit :=
  match due with
  | [] => ret tt
  | item :: rest =>
      match self_model with
      | None => raise AttributeError
      | Some cls =>
          rebalance_by_scheduled cls (with_respect_to item) ;;;
          resolve_loop self_model rest
      end
  end.

(** [scheduled_at__lte=now]. *)
Definition is_due (now : nat) (r : ScheduledRebalancing) : bool :=
  Nat.leb (scheduled_at r) now.

(** [Command.resolve] (lines 11-17). *)
Definition resolve (self_model : option ModelClass) (now : nat) : M unit :=
  fun db =>
    let due := List.filter (is_due now) (scheduled db) in
    match due with
    | [] => (Ok tt, db)
    | _ :: _ => resolve_loop self_model due db
    end.

(** [Command.handle] (lines 19-20). *)
Definition handle (self_model : option ModelClass) (now : nat) : M unit :=
  resolve self_model now.

End LexoRank.

(** [_model] is declared at lines 61-62 as a plain method: unlike
    [_with_respect_to_kwargs] and [_objects_count] next to it, it carries
    no [@property].  On an instance, [self._model] is therefore a bound
    method, and [self._model.objects] raises [AttributeError]. *)
Definition src_model_objects : result unit := Raise AttributeError.

(** The same attribute chain were [_model] a property returning
    [self._meta.model], as its body and its uses suggest: the manager. *)
Definition property_model_objects : result unit := Ok tt.

(** ** Auxiliary definitions used in the statements *)

(** The objects [qs] carrying the ranks [ks], position by position: the
    list [objects_to_update] at the end of a rebalancing loop. *)
Definition with_ranks (qs : list RankedItem) (ks : list string) : list RankedItem :=
  zip_with (fun o k => set_rank k o) qs ks.

(** What [bulk_update objs] makes of one row: the rank of the first object
    of [objs] with the row's primary key, when there is one. *)
Definition updated_row (objs : list RankedItem) (row : RankedItem) : RankedItem :=
  match List.find (has_pk (pk row)) objs with
  | Some o => set_rank (rank o) row
  | None => row
  end.

(** The scheduled rebalancings with their [model] column rewritten by
    [f]. *)
Definition relabel_models (f : ScheduledRebalancing -> string) (db : DB) : DB :=
  set_scheduled
    (map (fun r => mkScheduled (f r) (with_respect_to r) (scheduled_at r))
         (scheduled db)) db.

(** [key] is the partition key that the object [self] serialises to, with
    no separator inside a component: its components are the [str(pk)] of the
    objects [self] is grouped by. *)
Definition serialises (cls : ModelClass) (self : RankedItem) (key : string)
    : Prop :=
  exists fields vs,
    order_with_respect_to cls = Some fields
    /\ _with_respect_to_value cls self = Ok vs
    /\ Forall (fun v => contains SEPARATOR_char v = false) vs
    /\ _with_respect_to_value_key cls self = Ok key.


(** Running a list of actions one after the other; the first exception
    ends the run. *)
Fixpoint run_each (acts : list (M unit)) : M unit :=
  match acts with
  | [] => ret tt
  | act :: rest => act ;;; run_each rest
  end.

(** No two scheduled rebalancings for the same model and partition key. *)
Definition at_most_one_request (m w : string) (db : DB) : Prop :=
  length (List.filter (same_schedule m w) (scheduled db)) <= 1.

(** The rank [r] lies strictly after the rank of [before_obj] and strictly
    before the rank of [after_obj], for the boundary objects that are
    given. *)
Definition strictly_between (r : string)
    (before_obj after_obj : option RankedItem) : Prop :=
  (forall b, before_obj = Some b -> String.ltb (rank b) r = true)
  /\ (forall a, after_obj = Some a -> String.ltb r (rank a) = true).

(** ** A concrete setting for the examples

    A stand-in for the rank algebra, used only to run the code on concrete
    data: ranks over the letters [a] to [z], the minimum rank is ["a"] and
    incrementing moves the last letter one step up. *)

Definition sample_get_min_rank (n : nat) : result string := Ok "a".

Fixpoint sample_increment (r : string) : result string :=
  match r with
  | EmptyString => Raise ValueError
  | String c EmptyString =>
      if Nat.ltb (nat_of_ascii c) 122
      then Ok (String (ascii_of_nat (S (nat_of_ascii c))) EmptyString)
      else Raise (OtherError 0)
  | String c r' => rbind (sample_increment r') (fun t => Ok (String c t))
  end.

Definition sample_increment_rank (r : string) (n : nat) : result string :=
  sample_increment r.

(** A synthesis that answers ["n"], and one that signals overflow while the
    rank before the gap is three letters or longer. *)
Definition constant_rank (previous_rank next_rank : option string) (n : nat)
    : result string := Ok "n".
Definition overflow_on_long (previous_rank next_rank : option string) (n : nat)
    : result string :=
  match previous_rank with
  | Some r => if Nat.leb 3 (String.length r)
              then Raise RebalancingRequiredException else Ok "n"
  | None => Ok "n"
  end.

(** Two model classes: tasks grouped by board, cards grouped by board and
    column. *)
Definition task : ModelClass := mkClass "task" (Some ["board"]).
Definition card : ModelClass := mkClass "card" (Some ["board"; "column"]).

Definition a_task (p : nat) (r board : string) : RankedItem :=
  mkItem p r {["board" := board]}.
Definition a_card (p : nat) (r board column : string) : RankedItem :=
  mkItem p r (<["board" := board]> {["column" := column]}).

(** A table of three cards, two of them in board 7, column 3, and the
    keywords of that partition. *)
Definition sample_cards : DB :=
  mkDB [a_card 1 "x" "7" "3"; a_card 2 "q" "7" "3"; a_card 3 "k" "8" "3"] [].
Definition board7_column3 : gmap string string :=
  <["board" := "7"]> {["column" := "3"]}.

(** * Properties *)

(** ** Strings: [split] undoes [join] *)

Lemma split_no_sep sep s : contains sep s = false -> split sep s = [s].
Proof.
  induction s as [|c s IH]; simpl; [reflexivity|].
  intros H. apply orb_false_iff in H as [Hc Hs].
  rewrite Hc, (IH Hs). reflexivity.
Qed.

Lemma split_app_sep sep p s :
  contains sep p = false ->
  split sep (p ++ String sep s)%string = p :: split sep s.
Proof.
  induction p as [|c p IH]; simpl; intros H.
  - rewrite Ascii.eqb_refl. reflexivity.
  - apply orb_false_iff in H as [Hc Hp].
    rewrite Hc, (IH Hp). reflexivity.
Qed.

Lemma split_join sep parts :
  parts <> [] ->
  Forall (fun p => contains sep p = false) parts ->
  split sep (join (String sep EmptyString) parts) = parts.
Proof.
  induction parts as [|p rest IH]; [congruence|].
  intros _ Hall. inversion Hall as [|? ? Hp Hrest]; subst.
  destruct rest as [|q rest'].
  - simpl. apply split_no_sep, Hp.
  - change (join (String sep EmptyString) (p :: q :: rest'))
      with (p ++ String sep (join (String sep EmptyString) (q :: rest')))%string.
    rewrite split_app_sep by exact Hp.
    f_equal. apply IH; [discriminate | exact Hrest].
Qed.

(** ** The two loops over the grouping fields agree *)

Lemma reverse_loop_kwargs_loop self fields :
  forall vs pre acc,
    rmapM (getattr_pk self) fields = Ok vs ->
    reverse_loop fields (pre ++ vs) (length pre) acc
    = kwargs_loop self fields acc.
Proof.
  induction fields as [|f fs IH]; intros vs pre acc Hvs; simpl in *.
  - reflexivity.
  - destruct (getattr_pk self f) as [v|e] eqn:Hf; simpl in Hvs; [|discriminate].
    destruct (rmapM (getattr_pk self) fs) as [vs'|e] eqn:Hfs; simpl in Hvs;
      [|discriminate].
    injection Hvs as <-. simpl.
    rewrite lookup_app_r by lia. rewrite Nat.sub_diag. simpl.
    specialize (IH vs' (pre ++ [v]) (<[f:=v]> acc) eq_refl).
    rewrite <- app_assoc in IH. simpl in IH.
    rewrite length_app in IH. simpl in IH.
    replace (length pre + 1) with (S (length pre)) in IH by lia.
    exact IH.
Qed.

Lemma kwargs_loop_total self fields :
  forall vs acc,
    rmapM (getattr_pk self) fields = Ok vs ->
    exists m, kwargs_loop self fields acc = Ok m.
Proof.
  induction fields as [|f fs IH]; intros vs acc Hvs; simpl in *.
  - eauto.
  - destruct (getattr_pk self f) as [v|e]; simpl in *; [|discriminate].
    destruct (rmapM (getattr_pk self) fs) as [vs'|e] eqn:Hfs; simpl in Hvs;
      [|discriminate].
    eapply IH; reflexivity.
Qed.

Lemma kwargs_loop_lookup self fields :
  forall acc m,
    kwargs_loop self fields acc = Ok m ->
    forall f, (f ∈ fields -> m !! f = attrs self !! f /\ is_Some (m !! f))
              /\ (f ∉ fields -> m !! f = acc !! f).
Proof.
  induction fields as [|g fs IH]; intros acc m Hm f; simpl in *.
  - injection Hm as <-. split; [intros H; inversion H | reflexivity].
  - unfold getattr_pk in Hm.
    destruct (attrs self !! g) as [v|] eqn:Hg; simpl in Hm; [|discriminate].
    destruct (IH _ _ Hm f) as [Hin Hout].
    destruct (decide (f ∈ fs)) as [Hfs|Hfs].
    + split; [intros _; auto | intros Hn; exfalso; apply Hn; right; exact Hfs].
    + split.
      * intros Hf. apply elem_of_cons in Hf as [->|Hf]; [|contradiction].
        rewrite (Hout Hfs), lookup_insert_eq, Hg. eauto.
      * intros Hn. rewrite (Hout Hfs).
        apply lookup_insert_ne. intros ->. apply Hn. left.
Qed.

Lemma rmapM_length {A B} (f : A -> result B) l vs :
  rmapM f l = Ok vs -> length vs = length l.
Proof.
  revert vs. induction l as [|x xs IH]; intros vs H; simpl in *.
  - injection H as <-. reflexivity.
  - destruct (f x); simpl in H; [|discriminate].
    destruct (rmapM f xs); simpl in H; [|discriminate].
    injection H as <-. simpl. f_equal. apply IH. reflexivity.
Qed.

(** C9.  For a model class with a non-empty [order_with_respect_to] and an
    item whose serialised components contain no separator, decoding the
    item's [_with_respect_to_value_key] with
    [reverse_with_respect_to_value_key] succeeds and gives the dictionary
    that maps each grouping field to the string form of the item's value for
    it (the dictionary [_with_respect_to_kwargs] builds); and two such items
    with the same key have the same tuple of components. *)
Theorem partition_key_roundtrip cls self fields vs :
  order_with_respect_to cls = Some fields ->
  fields <> [] ->
  _with_respect_to_value cls self = Ok vs ->
  Forall (fun v => contains SEPARATOR_char v = false) vs ->
  exists m,
    rbind (_with_respect_to_value_key cls self)
          (reverse_with_respect_to_value_key cls) = Ok m
    /\ _with_respect_to_kwargs cls self = Ok m
    /\ (forall f, f ∈ fields ->
          exists v, getattr_pk self f = Ok v /\ m !! f = Some v)
    /\ (forall self' vs',
          _with_respect_to_value cls self' = Ok vs' ->
          Forall (fun v => contains SEPARATOR_char v = false) vs' ->
          _with_respect_to_value_key cls self' = _with_respect_to_value_key cls self ->
          vs' = vs).
Proof.
  intros Hcls Hne Hvs Hsep.
  assert (Hfields : wrt_fields cls = fields) by (unfold wrt_fields; rewrite Hcls; reflexivity).
  unfold _with_respect_to_value in Hvs. rewrite Hfields in Hvs.
  assert (Hvsne : vs <> []).
  { intros ->. apply rmapM_length in Hvs. destruct fields; [congruence|discriminate]. }
  destruct (kwargs_loop_total self fields vs ∅ Hvs) as [m Hm].
  exists m.
  assert (Hkey : _with_respect_to_value_key cls self = Ok (join SEPARATOR vs)).
  { unfold _with_respect_to_value_key, _with_respect_to_value.
    rewrite Hfields, Hvs. reflexivity. }
  repeat split.
  - rewrite Hkey. simpl. unfold reverse_with_respect_to_value_key.
    rewrite Hcls. unfold SEPARATOR. rewrite split_join by assumption.
    rewrite <- Hm. apply (reverse_loop_kwargs_loop self fields vs [] ∅ Hvs).
  - unfold _with_respect_to_kwargs. rewrite Hfields. exact Hm.
  - intros f Hf.
    destruct (kwargs_loop_lookup self fields ∅ m Hm f) as [Hin _].
    destruct (Hin Hf) as [Heq [v Hv]].
    exists v. split; [|exact Hv].
    unfold getattr_pk. rewrite <- Heq, Hv. reflexivity.
  - intros self' vs' Hvs' Hsep' Hk.
    unfold _with_respect_to_value in Hvs'. rewrite Hfields in Hvs'.
    assert (Hvsne' : vs' <> []).
    { intros ->. apply rmapM_length in Hvs'. destruct fields; [congruence|discriminate]. }
    rewrite Hkey in Hk.
    unfold _with_respect_to_value_key, _with_respect_to_value in Hk.
    rewrite Hfields, Hvs' in Hk. simpl in Hk. injection Hk as Hk.
    rewrite <- (split_join SEPARATOR_char vs') by assumption.
    rewrite <- (split_join SEPARATOR_char vs) by assumption.
    unfold SEPARATOR in Hk. rewrite Hk. reflexivity.
Qed.

Lemma partition_key_roundtrip_witness :
  exists m,
    rbind (_with_respect_to_value_key card (a_card 1 "m" "7" "3"))
          (reverse_with_respect_to_value_key card) = Ok m
    /\ _with_respect_to_kwargs card (a_card 1 "m" "7" "3") = Ok m
    /\ m !! "board" = Some "7" /\ m !! "column" = Some "3".
Proof.
  destruct (partition_key_roundtrip card (a_card 1 "m" "7" "3")
              ["board"; "column"] ["7"; "3"])
    as (m & Hround & Hkw & _).
  - reflexivity.
  - discriminate.
  - vm_compute. reflexivity.
  - repeat constructor.
  - exists m. split; [exact Hround|]. split; [exact Hkw|].
    vm_compute in Hkw. injection Hkw as <-. split; vm_compute; reflexivity.
Defined.

(** ** Order on ranks *)

Lemma ltb_trans a b c :
  String.ltb a b = true -> String.ltb b c = true -> String.ltb a c = true.
Proof.
  unfold String.ltb. intros H1 H2.
  assert (L1 : String_as_OT.lt a b).
  { unfold String_as_OT.lt. change (String.compare a b = Lt).
    destruct (String.compare a b); congruence. }
  assert (L2 : String_as_OT.lt b c).
  { unfold String_as_OT.lt. change (String.compare b c = Lt).
    destruct (String.compare b c); congruence. }
  pose proof (StrictOrder_Transitive _ _ _ L1 L2) as L3.
  unfold String_as_OT.lt in L3. change (String.compare a c = Lt) in L3.
  rewrite L3. reflexivity.
Qed.

(** ** Querysets *)

Lemma order_by_rank_perm rows : order_by_rank rows ≡ₚ rows.
Proof. apply merge_sort_Permutation. Qed.

Lemma order_by_rank_length rows : length (order_by_rank rows) = length rows.
Proof. apply Permutation_length, order_by_rank_perm. Qed.

Lemma elem_of_objects_filter kw rows o :
  o ∈ objects_filter kw rows <-> o ∈ rows /\ matches kw o = true.
Proof.
  unfold objects_filter. rewrite !list_elem_of_In. apply filter_In.
Qed.

Lemma NoDup_pk_inj (rows : list RankedItem) a b :
  NoDup (map pk rows) -> a ∈ rows -> b ∈ rows -> pk a = pk b -> a = b.
Proof.
  induction rows as [|x xs IH]; intros Hnd Ha Hb Hpk; [inversion Ha|].
  simpl in Hnd. apply NoDup_cons in Hnd as [Hx Hxs].
  apply elem_of_cons in Ha as [->|Ha]; apply elem_of_cons in Hb as [->|Hb].
  - reflexivity.
  - exfalso. apply Hx. rewrite Hpk. apply list_elem_of_fmap. eauto.
  - exfalso. apply Hx. rewrite <- Hpk. apply list_elem_of_fmap. eauto.
  - auto.
Qed.

Lemma NoDup_pk_filter (rows : list RankedItem) kw :
  NoDup (map pk rows) -> NoDup (map pk (order_by_rank (objects_filter kw rows))).
Proof.
  intros Hnd.
  rewrite (order_by_rank_perm (objects_filter kw rows)).
  unfold objects_filter.
  induction rows as [|x xs IH]; simpl in *; [constructor|].
  apply NoDup_cons in Hnd as [Hx Hxs].
  destruct (matches kw x); [|auto].
  simpl. apply NoDup_cons. split; [|auto].
  intros Hin. apply Hx.
  apply list_elem_of_fmap in Hin as [y [Hy Hyin]].
  apply list_elem_of_fmap. exists y. split; [exact Hy|].
  apply list_elem_of_In in Hyin. apply filter_In in Hyin as [Hyin _].
  apply list_elem_of_In. exact Hyin.
Qed.

(** ** Rebalancing *)

Lemma find_with_ranks_hit qs :
  forall ks i o k,
    NoDup (map pk qs) -> qs !! i = Some o -> ks !! i = Some k ->
    List.find (has_pk (pk o)) (with_ranks qs ks) = Some (set_rank k o).
Proof.
  induction qs as [|x xs IH]; intros ks i o k Hnd Ho Hk; [destruct i; discriminate|].
  destruct ks as [|k0 ks]; [destruct i; discriminate|].
  simpl in Hnd. apply NoDup_cons in Hnd as [Hx Hxs].
  destruct i as [|i]; simpl in *.
  - injection Ho as ->. injection Hk as ->.
    unfold has_pk at 1. simpl. rewrite Nat.eqb_refl. reflexivity.
  - unfold has_pk at 1. simpl.
    destruct (Nat.eqb (pk x) (pk o)) eqn:E.
    + exfalso. apply Nat.eqb_eq in E. apply Hx. rewrite E.
      apply list_elem_of_fmap. exists o. split; [reflexivity|].
      apply list_elem_of_lookup. eauto.
    + eapply IH; eauto.
Qed.

Lemma find_with_ranks_miss qs :
  forall ks p,
    (forall o, o ∈ qs -> pk o <> p) ->
    List.find (has_pk p) (with_ranks qs ks) = None.
Proof.
  induction qs as [|x xs IH]; intros ks p Hp; [reflexivity|].
  destruct ks as [|k ks]; [reflexivity|]. simpl.
  unfold has_pk at 1. simpl.
  destruct (Nat.eqb (pk x) p) eqn:E.
  - apply Nat.eqb_eq in E. exfalso. apply (Hp x); [left | exact E].
  - apply IH. intros o Ho. apply Hp. right. exact Ho.
Qed.

Section Rebalancing.

Variable get_min_rank : nat -> result string.
Variable increment_rank : string -> nat -> result string.
Variable cls : ModelClass.

Lemma rebalance_loop_const n qs :
  forall r db,
    rebalance_loop increment_rank (ret n) r qs db
    = (rbind (rank_chain increment_rank r n (length qs))
         (fun ks => Ok (with_ranks qs ks)), db).
Proof.
  induction qs as [|obj rest IH]; intros r db; simpl.
  - reflexivity.
  - unfold bind, ret, lift. simpl.
    destruct (increment_rank r n) as [r'|e]; simpl; [|reflexivity].
    unfold bind in IH. rewrite IH.
    destruct (rank_chain increment_rank r' n (length rest)); reflexivity.
Qed.

Lemma rank_chain_length n len :
  forall r ks, rank_chain increment_rank r n len = Ok ks -> length ks = len.
Proof.
  induction len as [|len IH]; intros r ks H; simpl in H.
  - injection H as <-. reflexivity.
  - destruct (increment_rank r n) as [r'|]; simpl in H; [|discriminate].
    destruct (rank_chain increment_rank r' n len) eqn:E; simpl in H; [|discriminate].
    injection H as <-. simpl. f_equal. eauto.
Qed.

Lemma rank_chain_first n len r ks k :
  rank_chain increment_rank r n len = Ok ks ->
  ks !! 0 = Some k -> increment_rank r n = Ok k.
Proof.
  destruct len as [|len]; simpl; intros H Hk.
  - injection H as <-. discriminate.
  - destruct (increment_rank r n) as [r'|]; simpl in H; [|discriminate].
    destruct (rank_chain increment_rank r' n len); simpl in H; [|discriminate].
    injection H as <-. simpl in Hk. congruence.
Qed.

Lemma rank_chain_next n len :
  forall r ks i a b,
    rank_chain increment_rank r n len = Ok ks ->
    ks !! i = Some a -> ks !! S i = Some b -> increment_rank a n = Ok b.
Proof.
  induction len as [|len IH]; intros r ks i a b H Ha Hb; simpl in H.
  - injection H as <-. discriminate.
  - destruct (increment_rank r n) as [r'|]; simpl in H; [|discriminate].
    destruct (rank_chain increment_rank r' n len) as [ks'|] eqn:E; simpl in H;
      [|discriminate].
    injection H as <-. destruct i as [|i]; simpl in *.
    + injection Ha as <-. eapply rank_chain_first; eauto.
    + eapply IH; eauto.
Qed.

Lemma rank_chain_increasing n len r ks :
  rank_chain increment_rank r n len = Ok ks ->
  (forall a b, a ∈ ks -> increment_rank a n = Ok b -> String.ltb a b = true) ->
  forall d i ki kj,
    ks !! i = Some ki -> ks !! (S (i + d)) = Some kj ->
    String.ltb ki kj = true.
Proof.
  intros Hks Hinc. induction d as [|d IH]; intros i ki kj Hi Hj.
  - rewrite Nat.add_0_r in Hj.
    apply (Hinc ki kj); [apply list_elem_of_lookup; eauto|].
    eapply rank_chain_next; eauto.
  - destruct (ks !! S (i + d)) as [km|] eqn:Hm.
    + apply (ltb_trans ki km kj); [eapply IH; eauto|].
      apply (Hinc km kj); [apply list_elem_of_lookup; eauto|].
      eapply rank_chain_next; eauto.
      replace (S (S (i + d))) with (S (i + S d)) by lia. exact Hj.
    + apply lookup_ge_None in Hm. apply lookup_lt_Some in Hj. lia.
Qed.

(** What a successful pass of [rebalance_by_scheduled] leaves: every row
    of the table rewritten by [bulk_update] from the partition in rank
    order paired with the ranks [ks]. *)
Lemma rebalance_by_scheduled_run key kw k0 ks db :
  reverse_with_respect_to_value_key cls key = Ok kw ->
  get_min_rank (length (objects_filter kw (items db))) = Ok k0 ->
  rank_chain increment_rank k0 (length (objects_filter kw (items db)))
    (length (objects_filter kw (items db))) = Ok ks ->
  rebalance_by_scheduled get_min_rank increment_rank cls key db
  = bulk_update (with_ranks (order_by_rank (objects_filter kw (items db))) ks) db.
Proof.
  intros Hkw Hmin Hks.
  unfold rebalance_by_scheduled, bind, lift, atomic, post_rebalance_by_scheduled.
  rewrite Hkw. cbn beta iota. rewrite Hmin.
  rewrite rebalance_loop_const, order_by_rank_length, Hks.
  reflexivity.
Qed.

(** A pass that cannot obtain its ranks raises and leaves the database
    as it was. *)
Lemma rebalance_by_scheduled_raises key kw k0 e db :
  reverse_with_respect_to_value_key cls key = Ok kw ->
  get_min_rank (length (objects_filter kw (items db))) = Ok k0 ->
  rank_chain increment_rank k0 (length (objects_filter kw (items db)))
    (length (objects_filter kw (items db))) = Raise e ->
  rebalance_by_scheduled get_min_rank increment_rank cls key db = (Raise e, db).
Proof.
  intros Hkw Hmin Hks.
  unfold rebalance_by_scheduled, bind, lift, atomic, post_rebalance_by_scheduled.
  rewrite Hkw. cbn beta iota. rewrite Hmin.
  rewrite rebalance_loop_const, order_by_rank_length, Hks.
  reflexivity.
Qed.

(** The inline [rebalance] runs the same loop: when [self._model.objects]
    resolves, it rewrites the partition with the same ranks and then reloads
    the instance. *)
Lemma rebalance_loop_count count n qs :
  forall r db,
    count db = (Ok n, db) ->
    rebalance_loop increment_rank count r qs db
    = (rbind (rank_chain increment_rank r n (length qs))
         (fun ks => Ok (with_ranks qs ks)), db).
Proof.
  induction qs as [|obj rest IH]; intros r db Hcount; simpl.
  - reflexivity.
  - unfold bind, ret, lift. rewrite Hcount. simpl.
    destruct (increment_rank r n) as [r'|e]; simpl; [|reflexivity].
    unfold bind in IH. rewrite (IH _ _ Hcount).
    destruct (rank_chain increment_rank r' n (length rest)); reflexivity.
Qed.

Lemma rebalance_with_manager self kw k0 ks db :
  _with_respect_to_kwargs cls self = Ok kw ->
  get_min_rank (length (objects_filter kw (items db))) = Ok k0 ->
  rank_chain increment_rank k0 (length (objects_filter kw (items db)))
    (length (objects_filter kw (items db))) = Ok ks ->
  rebalance get_min_rank increment_rank cls property_model_objects self db
  = refresh_from_db self
      (snd (bulk_update
              (with_ranks (order_by_rank (objects_filter kw (items db))) ks) db)).
Proof.
  intros Hkw Hmin Hks.
  assert (Hcount : _objects_count cls property_model_objects self db
                   = (Ok (length (objects_filter kw (items db))), db)).
  { unfold _objects_count, property_model_objects, bind, lift.
    rewrite Hkw. reflexivity. }
  unfold rebalance, post_rebalance. unfold bind at 1. unfold atomic.
  unfold bind at 1 2 3. unfold property_model_objects at 1. unfold lift at 1 2.
  rewrite Hkw. cbn beta iota. rewrite Hcount.
  unfold bind at 1. unfold lift at 1. rewrite Hmin. cbn beta iota.
  unfold bind at 1 2. cbn beta iota.
  rewrite (rebalance_loop_count _ _ _ _ _ Hcount), order_by_rank_length, Hks.
  unfold rbind, bind, lift, property_model_objects, bulk_update, ret.
  cbn beta iota. cbn [snd].
  destruct (refresh_from_db self _) as [[s|e] d]; reflexivity.
Qed.

(** What a pass assigns, in terms of the keywords [kw] decoded from the
    key: the first item in current rank order gets the increment of
    [get_min_rank n], each later item the increment of the rank given to the
    item before it; the rows matching [kw] are rewritten with exactly these
    ranks and every other row is left alone; and when [increment_rank]
    increases the ranks it is applied to, the new ranks are strictly
    increasing in the items' rank order before the pass. *)
Lemma rebalance_by_scheduled_assigns key kw k0 ks db :
  reverse_with_respect_to_value_key cls key = Ok kw ->
  NoDup (map pk (items db)) ->
  get_min_rank (length (objects_filter kw (items db))) = Ok k0 ->
  rank_chain increment_rank k0 (length (objects_filter kw (items db)))
    (length (objects_filter kw (items db))) = Ok ks ->
  exists db',
    rebalance_by_scheduled get_min_rank increment_rank cls key db = (Ok tt, db')
    /\ scheduled db' = scheduled db
    /\ length ks = length (objects_filter kw (items db))
    /\ (forall k, ks !! 0 = Some k ->
          increment_rank k0 (length (objects_filter kw (items db))) = Ok k)
    /\ (forall i a b, ks !! i = Some a -> ks !! S i = Some b ->
          increment_rank a (length (objects_filter kw (items db))) = Ok b)
    /\ (forall j row, items db !! j = Some row ->
          (matches kw row = false -> items db' !! j = Some row)
          /\ (forall i k,
                order_by_rank (objects_filter kw (items db)) !! i = Some row ->
                ks !! i = Some k ->
                items db' !! j = Some (set_rank k row)))
    /\ ((forall a b, a ∈ ks ->
           increment_rank a (length (objects_filter kw (items db))) = Ok b ->
           String.ltb a b = true) ->
        forall i j ki kj, i < j -> ks !! i = Some ki -> ks !! j = Some kj ->
                          String.ltb ki kj = true).
Proof.
  intros Hkw Hnd Hmin Hks.
  rewrite (rebalance_by_scheduled_run _ _ _ _ _ Hkw Hmin Hks).
  unfold bulk_update. eexists. split; [reflexivity|].
  split; [reflexivity|].
  split; [eapply rank_chain_length; eauto|].
  split; [intros k Hk; eapply rank_chain_first; eauto|].
  split; [intros i a b Ha Hb; eapply rank_chain_next; eauto|].
  split.
  - intros j row Hrow. simpl. rewrite list_lookup_fmap, Hrow. simpl.
    assert (Hin : row ∈ items db) by (apply list_elem_of_lookup; eauto).
    split.
    + intros Hno. rewrite find_with_ranks_miss; [reflexivity|].
      intros o Ho Hpk.
      rewrite (order_by_rank_perm _) in Ho.
      apply elem_of_objects_filter in Ho as [Ho Hm].
      assert (o = row) by (eapply NoDup_pk_inj; eauto). subst o. congruence.
    + intros i k Hi Hk.
      rewrite (find_with_ranks_hit _ ks i row k); auto.
      apply NoDup_pk_filter. exact Hnd.
  - intros Hinc i j ki kj Hij Hi Hj.
    replace j with (S (i + (j - S i))) in Hj by lia.
    eapply rank_chain_increasing; eauto.
Qed.

End Rebalancing.

(** C3, as stated, fails: on a partition of two cards the card that is
    first in rank order (rank ["q"]) is given ["b"], the increment of the
    minimum rank, and not the minimum rank ["a"] for two objects. *)
Lemma rebalance_first_rank_counterexample :
  let db := mkDB [a_card 1 "x" "7" "3"; a_card 2 "q" "7" "3"] [] in
  let kw : gmap string string := <["board" := "7"]> {["column" := "3"]} in
  reverse_with_respect_to_value_key card "7:3" = Ok kw
  /\ head (order_by_rank (objects_filter kw (items db))) = Some (a_card 2 "q" "7" "3")
  /\ sample_get_min_rank (length (objects_filter kw (items db))) = Ok "a"
  /\ rebalance_by_scheduled sample_get_min_rank sample_increment_rank card "7:3" db
     = (Ok tt, mkDB [a_card 1 "c" "7" "3"; a_card 2 "b" "7" "3"] [])
  /\ rank (a_card 2 "b" "7" "3") <> "a".
Proof.
  repeat split; try (vm_compute; reflexivity).
  simpl. discriminate.
Qed.

(** ** The instance methods as the source has them

    With [self._model.objects] raising, every instance method that reaches
    for the manager through [self._model] raises before it reads or writes
    anything. *)

Section SourceInstanceMethods.

Variable get_lexorank_in_between :
  option string -> option string -> nat -> result string.
Variable get_min_rank : nat -> result string.
Variable increment_rank : string -> nat -> result string.
Variable rebalancing_length : nat.
Variable cls : ModelClass.

Lemma objects_count_src self db :
  _objects_count cls src_model_objects self db = (Raise AttributeError, db).
Proof. reflexivity. Qed.

Lemma rebalancing_required_src self db :
  rebalancing_required rebalancing_length cls src_model_objects self db
  = (Raise AttributeError, db).
Proof. reflexivity. Qed.

Lemma get_next_object_src self db :
  get_next_object cls src_model_objects self db = (Raise AttributeError, db).
Proof. reflexivity. Qed.

Lemma get_previous_object_src self db :
  get_previous_object cls src_model_objects self db = (Raise AttributeError, db).
Proof. reflexivity. Qed.

Lemma rebalance_src self db :
  rebalance get_min_rank increment_rank cls src_model_objects self db
  = (Raise AttributeError, db).
Proof. reflexivity. Qed.

Lemma wrapper_src self before_obj after_obj db :
  _wrapper_get_lexorank_in_between get_lexorank_in_between get_min_rank
    increment_rank cls src_model_objects self before_obj after_obj db
  = (Raise AttributeError, db).
Proof. reflexivity. Qed.

Lemma save_src now only_rank self db :
  exists e,
    save rebalancing_length cls src_model_objects now only_rank self db
    = (Raise e, db).
Proof.
  unfold save, atomic, bind, Model_save.
  destruct (existsb (has_pk (pk self)) (items db)); [eauto|].
  destruct only_rank; eauto.
Qed.

End SourceInstanceMethods.

(** ** Scheduling a rebalancing *)

Lemma same_schedule_refl m w t : same_schedule m w (mkScheduled m w t) = true.
Proof. unfold same_schedule. simpl. rewrite !String.eqb_refl. reflexivity. Qed.

Lemma update_or_create_fresh now m w db :
  List.filter (same_schedule m w) (scheduled db) = [] ->
  update_or_create now m w db
  = (Ok tt, set_scheduled (scheduled db ++ [mkScheduled m w now]) db).
Proof. intros H. unfold update_or_create. rewrite H. reflexivity. Qed.

Lemma update_or_create_existing now m w db r :
  List.filter (same_schedule m w) (scheduled db) = [r] ->
  update_or_create now m w db = (Ok tt, db).
Proof. intros H. unfold update_or_create. rewrite H. reflexivity. Qed.

Lemma filter_after_create m w now rows :
  List.filter (same_schedule m w) rows = [] ->
  List.filter (same_schedule m w) (rows ++ [mkScheduled m w now])
  = [mkScheduled m w now].
Proof.
  intros H. rewrite List.filter_app, H. simpl.
  rewrite same_schedule_refl. reflexivity.
Qed.

Lemma run_each_fixed (act : nat -> M unit) db :
  (forall t, act t db = (Ok tt, db)) ->
  forall times, run_each (map act times) db = (Ok tt, db).
Proof.
  intros Hact. induction times as [|t ts IH]; simpl; [reflexivity|].
  unfold bind. rewrite Hact. exact IH.
Qed.

(** C4 (amended).  On a table that holds at most one request for the
    item's partition, calling [schedule_rebalancing] any number K >= 1 of
    times (at the times [t1 :: times]) succeeds and leaves exactly one row
    for (model name, serialised partition key); the first call creates the
    row, stamped [t1], when there was none, and every repeated call leaves
    the whole database, the row's [scheduled_at] included, as it was: the
    timestamp is not refreshed. *)
Theorem schedule_rebalancing_idempotent cls self key db t1 times :
  _with_respect_to_value_key cls self = Ok key ->
  at_most_one_request (model_name cls) key db ->
  exists row db1,
    schedule_rebalancing cls t1 self db = (Ok tt, db1)
    /\ run_each (map (fun t => schedule_rebalancing cls t self) (t1 :: times)) db
       = (Ok tt, db1)
    /\ List.filter (same_schedule (model_name cls) key) (scheduled db1) = [row]
    /\ (forall t, schedule_rebalancing cls t self db1 = (Ok tt, db1))
    /\ items db1 = items db
    /\ (List.filter (same_schedule (model_name cls) key) (scheduled db) = [] ->
        row = mkScheduled (model_name cls) key t1
        /\ scheduled db1 = scheduled db ++ [row])
    /\ (forall r,
          List.filter (same_schedule (model_name cls) key) (scheduled db) = [r] ->
          row = r /\ db1 = db).
Proof.
  intros Hkey Hone. unfold at_most_one_request in Hone.
  assert (Hcall : forall t d,
             schedule_rebalancing cls t self d
             = update_or_create t (model_name cls) key d).
  { intros t d. unfold schedule_rebalancing, bind, lift. rewrite Hkey. reflexivity. }
  destruct (List.filter (same_schedule (model_name cls) key) (scheduled db))
    as [|r [|r' rest]] eqn:Hf; [| |simpl in Hone; lia].
  - exists (mkScheduled (model_name cls) key t1),
      (set_scheduled (scheduled db ++ [mkScheduled (model_name cls) key t1]) db).
    assert (Hf1 : List.filter (same_schedule (model_name cls) key)
                    (scheduled
                       (set_scheduled
                          (scheduled db ++ [mkScheduled (model_name cls) key t1]) db))
                  = [mkScheduled (model_name cls) key t1])
      by (apply filter_after_create; exact Hf).
    assert (Hrep : forall t,
               schedule_rebalancing cls t self
                 (set_scheduled
                    (scheduled db ++ [mkScheduled (model_name cls) key t1]) db)
               = (Ok tt,
                  set_scheduled
                    (scheduled db ++ [mkScheduled (model_name cls) key t1]) db)).
    { intros t. rewrite Hcall. eapply update_or_create_existing. exact Hf1. }
    split; [rewrite Hcall; apply update_or_create_fresh; exact Hf|].
    split.
    { simpl. unfold bind. rewrite Hcall, (update_or_create_fresh _ _ _ _ Hf).
      apply (run_each_fixed (fun t => schedule_rebalancing cls t self)). exact Hrep. }
    split; [exact Hf1|].
    split; [exact Hrep|].
    split; [reflexivity|].
    split; [intros _; split; reflexivity | intros r0 Hr0; discriminate].
  - exists r, db.
    assert (Hrep : forall t, schedule_rebalancing cls t self db = (Ok tt, db)).
    { intros t. rewrite Hcall. eapply update_or_create_existing. exact Hf. }
    split; [apply Hrep|].
    split.
    { apply (run_each_fixed (fun t => schedule_rebalancing cls t self)
               db Hrep (t1 :: times)). }
    split; [exact Hf|].
    split; [exact Hrep|].
    split; [reflexivity|].
    split; [intros H0; discriminate|].
    intros r0 Hr0. injection Hr0 as <-. split; reflexivity.
Qed.

Lemma schedule_rebalancing_idempotent_witness :
  exists row db1,
    run_each (map (fun t => schedule_rebalancing task t (a_task 1 "m" "7")) [4; 6; 9])
      (mkDB [a_task 1 "m" "7"] []) = (Ok tt, db1)
    /\ List.filter (same_schedule "task" "7") (scheduled db1) = [row]
    /\ row = mkScheduled "task" "7" 4.
Proof.
  destruct (schedule_rebalancing_idempotent task (a_task 1 "m" "7") "7"
              (mkDB [a_task 1 "m" "7"] []) 4 [6; 9])
    as (row & db1 & _ & Hrun & Hone & _ & _ & Hnew & _).
  - vm_compute. reflexivity.
  - unfold at_most_one_request. simpl. lia.
  - exists row, db1. split; [exact Hrun|]. split; [exact Hone|].
    apply Hnew. reflexivity.
Defined.

(** C4, as stated, fails: a second call, at time 2, does not refresh the
    timestamp of the request the first call created at time 1. *)
Lemma schedule_timestamp_counterexample :
  run_each [schedule_rebalancing task 1 (a_task 1 "m" "7");
            schedule_rebalancing task 2 (a_task 1 "m" "7")]
    (mkDB [a_task 1 "m" "7"] [])
  = (Ok tt, mkDB [a_task 1 "m" "7"] [mkScheduled "task" "7" 1])
  /\ scheduled_at (mkScheduled "task" "7" 1) <> 2.
Proof. split; [vm_compute; reflexivity | simpl; lia]. Qed.

(** Every table built by [update_or_create] keeps at most one request per
    model and partition key. *)
Lemma update_or_create_at_most_one now m w m' w' db r db' :
  at_most_one_request m' w' db ->
  update_or_create now m w db = (r, db') ->
  at_most_one_request m' w' db'.
Proof.
  unfold at_most_one_request, update_or_create. intros Hone Hrun.
  destruct (List.filter (same_schedule m w) (scheduled db)) as [|x [|y rest]] eqn:Hf;
    injection Hrun as <- <-; try exact Hone.
  simpl. rewrite List.filter_app, length_app. simpl.
  destruct (same_schedule m' w' (mkScheduled m w now)) eqn:Hs; simpl; [|lia].
  unfold same_schedule in Hs. simpl in Hs.
  apply andb_true_iff in Hs as [Hm Hw].
  apply String.eqb_eq in Hm. apply String.eqb_eq in Hw. subst m' w'.
  rewrite Hf. simpl. lia.
Qed.

(** ** The rebalance command *)

Section CommandFacts.

Variable get_min_rank : nat -> result string.
Variable increment_rank : string -> nat -> result string.
Variable cls : ModelClass.

Local Abbreviation rebalance_request :=
  (fun item : ScheduledRebalancing =>
     rebalance_by_scheduled get_min_rank increment_rank cls (with_respect_to item)).

(** [rebalance_by_scheduled] returns with the database either rewritten
    by [bulk_update] or, when it raises, exactly as it was. *)
Lemma rebalance_by_scheduled_cases key db :
  (exists objs, rebalance_by_scheduled get_min_rank increment_rank cls key db
                = bulk_update objs db)
  \/ (exists e, rebalance_by_scheduled get_min_rank increment_rank cls key db
                = (Raise e, db)).
Proof.
  unfold rebalance_by_scheduled, bind, lift, atomic, post_rebalance_by_scheduled.
  destruct (reverse_with_respect_to_value_key cls key) as [kw|e];
    [|right; eauto].
  cbn beta iota.
  destruct (get_min_rank (length (objects_filter kw (items db)))) as [k0|e];
    [|right; eauto].
  rewrite rebalance_loop_const.
  destruct (rank_chain increment_rank k0 _ _) as [ks|e]; [|right; eauto].
  left. eexists. reflexivity.
Qed.

Lemma rebalance_by_scheduled_scheduled key db :
  scheduled (snd (rebalance_by_scheduled get_min_rank increment_rank cls key db))
  = scheduled db.
Proof.
  destruct (rebalance_by_scheduled_cases key db) as [[objs ->]|[e ->]];
    reflexivity.
Qed.

Lemma rebalance_by_scheduled_raise_keeps key db e db' :
  rebalance_by_scheduled get_min_rank increment_rank cls key db = (Raise e, db') ->
  db' = db.
Proof.
  destruct (rebalance_by_scheduled_cases key db) as [[objs ->]|[e' ->]];
    unfold bulk_update; congruence.
Qed.

Lemma resolve_loop_run_each due db :
  resolve_loop get_min_rank increment_rank (Some cls) due db
  = run_each (map rebalance_request due) db.
Proof.
  revert db. induction due as [|item rest IH]; intros db; simpl; [reflexivity|].
  unfold bind.
  destruct (rebalance_by_scheduled _ _ _ _ db) as [[[]|e] db1]; [apply IH|reflexivity].
Qed.

Lemma run_each_requests_scheduled due :
  forall db,
    scheduled (snd (run_each (map rebalance_request due) db)) = scheduled db.
Proof.
  induction due as [|item rest IH]; intros db; simpl; [reflexivity|].
  unfold bind.
  pose proof (rebalance_by_scheduled_scheduled (with_respect_to item) db) as H.
  destruct (rebalance_by_scheduled _ _ _ _ db) as [[[]|e] db1]; simpl in *.
  - rewrite IH. exact H.
  - exact H.
Qed.

Lemma run_each_app (acts1 acts2 : list (M unit)) db db1 :
  run_each acts1 db = (Ok tt, db1) ->
  run_each (acts1 ++ acts2) db = run_each acts2 db1.
Proof.
  revert db. induction acts1 as [|a rest IH]; intros db H; simpl in *.
  - injection H as <-. reflexivity.
  - unfold bind in *. destruct (a db) as [[[]|e] db']; [auto|discriminate].
Qed.

(** C2 (amended).  A pass of [resolve] invokes [rebalance_by_scheduled],
    on the command's model, with the serialised partition key of every
    request whose [scheduled_at] is at most [now], in table order and
    until one of them raises; it deletes nothing: the table of scheduled
    rebalancings after the pass is the table before it, so every request it
    processed is still there. *)
Theorem resolve_keeps_requests now db :
  resolve get_min_rank increment_rank (Some cls) now db
  = run_each (map rebalance_request (List.filter (is_due now) (scheduled db))) db
  /\ scheduled (snd (resolve get_min_rank increment_rank (Some cls) now db))
     = scheduled db.
Proof.
  assert (H : resolve get_min_rank increment_rank (Some cls) now db
              = run_each (map rebalance_request
                            (List.filter (is_due now) (scheduled db))) db).
  { unfold resolve.
    destruct (List.filter (is_due now) (scheduled db)) as [|item rest] eqn:Hdue;
      [reflexivity|].
    apply resolve_loop_run_each. }
  split; [exact H|].
  rewrite H. apply run_each_requests_scheduled.
Qed.

(** C7 (amended).  Within a pass of [resolve], a due request whose
    rebalancing raises ends the pass: the exception leaves [resolve], the
    database is as the requests before it left it, and the due requests
    after it are not attempted in that pass. *)
Theorem resolve_stops_at_first_failure now db pre item post db1 e db2 :
  List.filter (is_due now) (scheduled db) = pre ++ item :: post ->
  run_each (map rebalance_request pre) db = (Ok tt, db1) ->
  rebalance_by_scheduled get_min_rank increment_rank cls (with_respect_to item) db1
  = (Raise e, db2) ->
  resolve get_min_rank increment_rank (Some cls) now db = (Raise e, db1)
  /\ db2 = db1.
Proof.
  intros Hdue Hpre Hfail.
  pose proof (rebalance_by_scheduled_raise_keeps _ _ _ _ Hfail) as ->.
  split; [|reflexivity].
  unfold resolve. rewrite Hdue.
  destruct (pre ++ item :: post) as [|x xs] eqn:Hl;
    [destruct pre; discriminate|].
  rewrite <- Hl, resolve_loop_run_each, map_app.
  rewrite (run_each_app _ _ _ _ Hpre). simpl. unfold bind.
  rewrite Hfail. reflexivity.
Qed.

End CommandFacts.

(** C2, as stated, fails: after a successful pass at time 5 the request
    that was due (scheduled at 2) and whose partition was rebalanced is still
    in the table. *)
Lemma resolve_request_remains_counterexample :
  resolve sample_get_min_rank sample_increment_rank (Some card) 5
    (mkDB [a_card 1 "x" "7" "3"; a_card 2 "q" "7" "3"]
          [mkScheduled "card" "7:3" 2])
  = (Ok tt,
     mkDB [a_card 1 "c" "7" "3"; a_card 2 "b" "7" "3"]
          [mkScheduled "card" "7:3" 2])
  /\ is_due 5 (mkScheduled "card" "7:3" 2) = true.
Proof. split; vm_compute; reflexivity. Qed.

Lemma resolve_stops_at_first_failure_witness :
  resolve sample_get_min_rank sample_increment_rank (Some card) 5
    (mkDB [a_card 1 "x" "7" "3"; a_card 2 "q" "7" "3"]
          [mkScheduled "task" "7" 1; mkScheduled "card" "7:3" 2])
  = (Raise IndexError,
     mkDB [a_card 1 "x" "7" "3"; a_card 2 "q" "7" "3"]
          [mkScheduled "task" "7" 1; mkScheduled "card" "7:3" 2]).
Proof.
  apply (resolve_stops_at_first_failure
           sample_get_min_rank sample_increment_rank card 5
           (mkDB [a_card 1 "x" "7" "3"; a_card 2 "q" "7" "3"]
                 [mkScheduled "task" "7" 1; mkScheduled "card" "7:3" 2])
           [] (mkScheduled "task" "7" 1) [mkScheduled "card" "7:3" 2]
           _ IndexError
           (mkDB [a_card 1 "x" "7" "3"; a_card 2 "q" "7" "3"]
                 [mkScheduled "task" "7" 1; mkScheduled "card" "7:3" 2])).
  - reflexivity.
  - reflexivity.
  - vm_compute. reflexivity.
Defined.

(** C7, as stated, fails: two requests are due; the first carries a key
    with one component, which the two-field model cannot decode, so its
    rebalancing raises [IndexError]; the pass ends there with the cards
    untouched, although rebalancing the second request's partition on its
    own succeeds and renumbers them. *)
Lemma resolve_failure_counterexample :
  resolve sample_get_min_rank sample_increment_rank (Some card) 5
    (mkDB [a_card 1 "x" "7" "3"; a_card 2 "q" "7" "3"]
          [mkScheduled "task" "7" 1; mkScheduled "card" "7:3" 2])
  = (Raise IndexError,
     mkDB [a_card 1 "x" "7" "3"; a_card 2 "q" "7" "3"]
          [mkScheduled "task" "7" 1; mkScheduled "card" "7:3" 2])
  /\ rebalance_by_scheduled sample_get_min_rank sample_increment_rank card "7:3"
       (mkDB [a_card 1 "x" "7" "3"; a_card 2 "q" "7" "3"]
             [mkScheduled "task" "7" 1; mkScheduled "card" "7:3" 2])
     = (Ok tt,
        mkDB [a_card 1 "c" "7" "3"; a_card 2 "b" "7" "3"]
             [mkScheduled "task" "7" 1; mkScheduled "card" "7:3" 2]).
Proof. split; vm_compute; reflexivity. Qed.

(** ** The in-between wrapper and [place_between] *)

Lemma kwargs_loop_from_attrs self fields :
  forall acc m,
    kwargs_loop self fields acc = Ok m ->
    map_Forall (fun f v => attrs self !! f = Some v) acc ->
    map_Forall (fun f v => attrs self !! f = Some v) m.
Proof.
  induction fields as [|g fs IH]; intros acc m Hm Hacc; simpl in Hm.
  - injection Hm as <-. exact Hacc.
  - unfold getattr_pk in Hm.
    destruct (attrs self !! g) as [v|] eqn:Hg; simpl in Hm; [|discriminate].
    apply (IH _ _ Hm). apply map_Forall_insert_2; assumption.
Qed.

(** An instance matches the keyword arguments built from itself. *)
Lemma matches_own_kwargs cls self kw :
  _with_respect_to_kwargs cls self = Ok kw -> matches kw self = true.
Proof.
  intros H. unfold matches. apply bool_decide_eq_true.
  apply (kwargs_loop_from_attrs self (wrt_fields cls) ∅ kw H).
  apply map_Forall_empty.
Qed.

Lemma bound_of_gt r o :
  (forall b, o = Some b -> String.ltb (rank b) r = true) ->
  forall x, rank x = r ->
  match bound_of o with Some b => rank_gt b x | None => true end = true.
Proof.
  intros H x <-. unfold bound_of.
  destruct o as [b|]; simpl; [|reflexivity].
  destruct (rank b) eqn:Hb; simpl; [reflexivity|].
  unfold rank_gt. rewrite <- Hb. apply H. reflexivity.
Qed.

Lemma bound_of_lt r o :
  (forall a, o = Some a -> String.ltb r (rank a) = true) ->
  forall x, rank x = r ->
  match bound_of o with Some b => rank_lt b x | None => true end = true.
Proof.
  intros H x <-. unfold bound_of.
  destruct o as [a|]; simpl; [|reflexivity].
  destruct (rank a) eqn:Ha; simpl; [reflexivity|].
  unfold rank_lt. rewrite <- Ha. apply H. reflexivity.
Qed.

Section PlaceBetween.

Variable get_lexorank_in_between :
  option string -> option string -> nat -> result string.
Variable get_min_rank : nat -> result string.
Variable increment_rank : string -> nat -> result string.
Variable rebalancing_length : nat.
Variable cls : ModelClass.
Variable self_model_objects : result unit.

Local Abbreviation wrapper :=
  (_wrapper_get_lexorank_in_between get_lexorank_in_between get_min_rank
     increment_rank cls self_model_objects).

(** The wrapper hands back a tuple only from the [else] clause: the first
    synthesis succeeded, nothing was written, and the boundary objects are
    the ones passed in. *)
Lemma wrapper_returns_tuple self before_obj after_obj db t db' :
  wrapper self before_obj after_obj db = (Ok (Some t), db') ->
  db' = db
  /\ self_model_objects = Ok tt
  /\ exists kw,
       _with_respect_to_kwargs cls self = Ok kw
       /\ get_lexorank_in_between (option_map rank before_obj)
            (option_map rank after_obj)
            (length (objects_filter kw (items db))) = Ok (snd (fst t))
       /\ fst (fst t) = before_obj /\ snd t = after_obj.
Proof.
  unfold _wrapper_get_lexorank_in_between.
  destruct self_model_objects as [[]|e0].
  2:{ unfold _objects_count, rebalance, atomic, bind, lift.
      destruct e0; intros H; discriminate. }
  unfold _objects_count at 1. unfold bind at 1 2 3. unfold lift at 1 2 3.
  destruct (_with_respect_to_kwargs cls self) as [kw|e1] eqn:Hkw.
  2:{ unfold rebalance, atomic, bind, lift. rewrite Hkw.
      destruct e1; intros H; discriminate. }
  destruct (get_lexorank_in_between _ _ _) as [r|e2] eqn:Hsyn.
  - intros H. injection H as <- <-. simpl. eauto 10.
  - destruct e2; try (intros H; discriminate).
    unfold bind, ret.
    repeat match goal with
           | |- context [match ?m ?d with pair _ _ => _ end] =>
               destruct (m d) as [[?|?] ?]
           end; intros H; discriminate.
Qed.

(** When the first synthesis succeeds the wrapper returns its rank and
    touches nothing. *)
Lemma wrapper_first_try self before_obj after_obj db kw r :
  self_model_objects = Ok tt ->
  _with_respect_to_kwargs cls self = Ok kw ->
  get_lexorank_in_between (option_map rank before_obj) (option_map rank after_obj)
    (length (objects_filter kw (items db))) = Ok r ->
  wrapper self before_obj after_obj db
  = (Ok (Some (before_obj, r, after_obj)), db).
Proof.
  intros Hmgr Hkw Hsyn.
  unfold _wrapper_get_lexorank_in_between, _objects_count.
  unfold bind at 1 2 3. unfold lift at 1 2 3.
  rewrite Hmgr, Hkw. cbn beta iota. rewrite Hsyn. reflexivity.
Qed.

(** When the first synthesis signals [RebalancingRequiredException] the
    wrapper rebalances the partition, reloads the boundary objects,
    counts again and calls the synthesis a second and last time; an
    exception of that call leaves the wrapper, and a rank it returns is
    dropped: the wrapper ends without a tuple. *)
Lemma wrapper_overflow self before_obj after_obj db kw :
  self_model_objects = Ok tt ->
  _with_respect_to_kwargs cls self = Ok kw ->
  get_lexorank_in_between (option_map rank before_obj) (option_map rank after_obj)
    (length (objects_filter kw (items db))) = Raise RebalancingRequiredException ->
  wrapper self before_obj after_obj db
  = (self' <~ rebalance get_min_rank increment_rank cls self_model_objects self ;;
     before_obj' <~ refresh_opt before_obj ;;
     after_obj' <~ refresh_opt after_obj ;;
     n <~ _objects_count cls self_model_objects self' ;;
     _ <~ lift (get_lexorank_in_between (option_map rank before_obj')
                  (option_map rank after_obj') n) ;;
     ret None) db.
Proof.
  intros Hmgr Hkw Hsyn.
  unfold _wrapper_get_lexorank_in_between.
  unfold _objects_count at 1. unfold bind at 1 2 3. unfold lift at 1 2 3.
  rewrite Hmgr, Hkw. cbn beta iota. rewrite Hsyn. reflexivity.
Qed.

(** Whatever the wrapper did, [place_between] never returns normally
    for an item that lies in its own partition strictly between the
    boundaries: either an earlier step raised, or the wrapper ended
    without a tuple, or the existence check finds the item itself. *)
Lemma place_between_own_range now self before_obj after_obj db :
  self ∈ items db ->
  strictly_between (rank self) before_obj after_obj ->
  exists e db',
    place_between get_lexorank_in_between get_min_rank increment_rank
      rebalancing_length cls self_model_objects now self before_obj after_obj db
    = (Raise e, db')
    /\ (forall w db1, wrapper self before_obj after_obj db = (Ok (Some w), db1) ->
          e = PyException "Not valid rank" /\ db' = db).
Proof.
  intros Hin [Hgt Hlt]. unfold place_between. unfold bind at 1.
  destruct (wrapper self before_obj after_obj db) as [[[t|]|e] db1] eqn:Hw.
  - destruct (wrapper_returns_tuple _ _ _ _ _ _ Hw)
      as (-> & _ & kw & Hkw & _ & Hb & Ha).
    unfold unpack, bind, ret, lift. rewrite Hkw, Hb, Ha.
    unfold queryset_wrapper_exists.
    assert (Hex : existsb
                    (fun o =>
                       match bound_of before_obj with
                       | Some b => rank_gt b o
                       | None => true
                       end
                       && match bound_of after_obj with
                          | Some b => rank_lt b o
                          | None => true
                          end)
                    (objects_filter kw (items db)) = true).
    { apply existsb_exists. exists self. split.
      - apply list_elem_of_In, elem_of_objects_filter. split; [exact Hin|].
        eapply matches_own_kwargs; eauto.
      - rewrite (bound_of_gt (rank self) before_obj Hgt self eq_refl).
        rewrite (bound_of_lt (rank self) after_obj Hlt self eq_refl).
        reflexivity. }
    rewrite Hex. unfold raise.
    eexists _, _. split; [reflexivity|]. intros; split; reflexivity.
  - unfold unpack, bind, raise.
    eexists _, _. split; [reflexivity|]. intros w db2 H. discriminate.
  - eexists _, _. split; [reflexivity|]. intros w db2 H. discriminate.
Qed.

(** What [place_between] does once the wrapper has returned a rank
    without rebalancing: it raises when some row of the item's partition
    has a rank within the bounds, and moves the item otherwise. *)
Lemma place_between_checked now self before_obj after_obj db kw r :
  self_model_objects = Ok tt ->
  _with_respect_to_kwargs cls self = Ok kw ->
  get_lexorank_in_between (option_map rank before_obj) (option_map rank after_obj)
    (length (objects_filter kw (items db))) = Ok r ->
  place_between get_lexorank_in_between get_min_rank increment_rank
    rebalancing_length cls self_model_objects now self before_obj after_obj db
  = if existsb
         (fun o =>
            match bound_of before_obj with Some b => rank_gt b o | None => true end
            && match bound_of after_obj with Some b => rank_lt b o | None => true end)
         (objects_filter kw (items db))
    then (Raise (PyException "Not valid rank"), db)
    else _move_to rebalancing_length cls self_model_objects now self r db.
Proof.
  intros Hmgr Hkw Hsyn.
  unfold place_between. unfold bind at 1.
  rewrite (wrapper_first_try _ _ _ _ _ _ Hmgr Hkw Hsyn).
  unfold unpack, bind, ret, lift, queryset_wrapper_exists. rewrite Hkw. simpl.
  destruct (existsb _ _); reflexivity.
Qed.

End PlaceBetween.

(** ** [save] when [self._model] resolves *)

Section SaveWithManager.

Variable rebalancing_length : nat.
Variable cls : ModelClass.

(** With the manager at hand, a save that writes the row schedules a
    rebalancing exactly when some row of the item's partition has a rank
    of length at least [rebalancing_length]. *)
Lemma save_with_manager now only_rank self db db1 kw key :
  Model_save only_rank self db = (Ok tt, db1) ->
  _with_respect_to_kwargs cls self = Ok kw ->
  _with_respect_to_value_key cls self = Ok key ->
  at_most_one_request (model_name cls) key db1 ->
  save rebalancing_length cls property_model_objects now only_rank self db
  = if existsb (rank_length_gte rebalancing_length) (objects_filter kw (items db1))
    then update_or_create now (model_name cls) key db1
    else (Ok tt, db1).
Proof.
  intros Hsave Hkw Hkey Hone.
  unfold save, atomic, bind. rewrite Hsave.
  unfold rebalancing_required, property_model_objects, bind, lift. rewrite Hkw.
  destruct (existsb _ _); [|reflexivity].
  unfold schedule_rebalancing, bind, lift. rewrite Hkey.
  unfold at_most_one_request in Hone. unfold update_or_create.
  destruct (List.filter _ (scheduled db1)) as [|r [|r' rest]];
    [reflexivity | reflexivity | simpl in Hone; lia].
Qed.

End SaveWithManager.

(** ** The instance methods on the source as it is: placements and [save] *)

Section SourceClaims.

Variable get_lexorank_in_between :
  option string -> option string -> nat -> result string.
Variable get_min_rank : nat -> result string.
Variable increment_rank : string -> nat -> result string.
Variable rebalancing_length : nat.
Variable cls : ModelClass.

(** C1.  On the source as it is, no placement operation reaches the
    in-between synthesis, whatever the synthesis would answer:
    [place_on_top] and [place_on_bottom] raise [TypeError] at the call of
    [get_first_object] / [get_last_object] without its argument, and
    [place_after], [place_before] and [place_between] raise
    [AttributeError] at [self._model.objects]; nothing is rebalanced,
    nothing is retried, and the database is left as it was. *)
Theorem placements_never_reach_synthesis now self other before_obj after_obj db :
  place_on_top get_lexorank_in_between get_min_rank increment_rank
    rebalancing_length cls src_model_objects now self db = (Raise TypeError, db)
  /\ place_on_bottom get_lexorank_in_between get_min_rank increment_rank
       rebalancing_length cls src_model_objects now self db = (Raise TypeError, db)
  /\ place_after get_lexorank_in_between get_min_rank increment_rank
       rebalancing_length cls src_model_objects now self other db
     = (Raise AttributeError, db)
  /\ place_before get_lexorank_in_between get_min_rank increment_rank
       rebalancing_length cls src_model_objects now self other db
     = (Raise AttributeError, db)
  /\ place_between get_lexorank_in_between get_min_rank increment_rank
       rebalancing_length cls src_model_objects now self before_obj after_obj db
     = (Raise AttributeError, db).
Proof. repeat split; reflexivity. Qed.

(** C5.  [place_on_top] calls [get_first_object] without the
    [with_respect_to_kwargs] argument the class method requires, so it
    raises [TypeError] before any rank is computed or persisted, for an
    empty and for a non-empty partition alike, and however
    [self._model.objects] evaluates. *)
Theorem place_on_top_type_error self_model_objects now self db :
  place_on_top get_lexorank_in_between get_min_rank increment_rank
    rebalancing_length cls self_model_objects now self db
  = (Raise TypeError, db).
Proof. reflexivity. Qed.

(** C6.  On the source as it is, [place_between] raises [AttributeError]
    and persists nothing, whether or not a row lies strictly between the
    boundaries: the wrapper fails at [self._objects_count] before the
    existence check is reached. *)
Theorem place_between_attribute_error now self before_obj after_obj db :
  place_between get_lexorank_in_between get_min_rank increment_rank
    rebalancing_length cls src_model_objects now self before_obj after_obj db
  = (Raise AttributeError, db).
Proof. reflexivity. Qed.

(** C8.  On the source as it is, [save] never succeeds and never
    schedules: once the row is written, [rebalancing_required] raises
    [AttributeError] at [self._model.objects] and the transaction is
    rolled back, whatever the rank lengths in the partition. *)
Theorem save_never_succeeds now only_rank self db :
  (exists e,
     save rebalancing_length cls src_model_objects now only_rank self db
     = (Raise e, db))
  /\ (existsb (has_pk (pk self)) (items db) = true \/ only_rank = false ->
      save rebalancing_length cls src_model_objects now only_rank self db
      = (Raise AttributeError, db)).
Proof.
  split; [apply save_src|].
  unfold save, atomic, bind, Model_save.
  destruct (existsb (has_pk (pk self)) (items db)); [reflexivity|].
  intros [H| ->]; [discriminate | reflexivity].
Qed.


End SourceClaims.

(** ** Concrete runs *)


(** With [_model] resolving and a synthesis that returns a rank, the same
    call raises "Not valid rank" and writes nothing. *)
Example place_between_own_range_example :
  place_between constant_rank sample_get_min_rank sample_increment_rank 64 task
    property_model_objects 0 (a_task 2 "m" "7")
    (Some (a_task 1 "b" "7")) (Some (a_task 3 "x" "7"))
    (mkDB [a_task 1 "b" "7"; a_task 2 "m" "7"; a_task 3 "x" "7"] [])
  = (Raise (PyException "Not valid rank"),
     mkDB [a_task 1 "b" "7"; a_task 2 "m" "7"; a_task 3 "x" "7"] []).
Proof. vm_compute. reflexivity. Qed.

(** C8 on a concrete input: the only task of board 7 has a rank of four
    letters and the threshold is three; the save raises and no request is
    written.  Were [_model] a property, the same save would write the
    request. *)
Example save_over_threshold_example :
  save 3 task src_model_objects 5 true (a_task 1 "abcd" "7")
    (mkDB [a_task 1 "abcd" "7"] [])
  = (Raise AttributeError, mkDB [a_task 1 "abcd" "7"] [])
  /\ save 3 task property_model_objects 5 true (a_task 1 "abcd" "7")
       (mkDB [a_task 1 "abcd" "7"] [])
     = (Ok tt, mkDB [a_task 1 "abcd" "7"] [mkScheduled "task" "7" 5]).
Proof. split; vm_compute; reflexivity. Qed.

(** C6 on a concrete input: no task of board 7 has a rank strictly between
    ["b"] and ["x"], yet [place_between] raises and task 3 keeps its rank.
    Were [_model] a property, task 3 would be moved to the synthesised
    rank. *)
Example place_between_free_range_example :
  place_between constant_rank sample_get_min_rank sample_increment_rank 64 task
    src_model_objects 0 (a_task 3 "zz" "7")
    (Some (a_task 1 "b" "7")) (Some (a_task 2 "x" "7"))
    (mkDB [a_task 1 "b" "7"; a_task 2 "x" "7"; a_task 3 "zz" "7"] [])
  = (Raise AttributeError,
     mkDB [a_task 1 "b" "7"; a_task 2 "x" "7"; a_task 3 "zz" "7"] [])
  /\ place_between constant_rank sample_get_min_rank sample_increment_rank 64 task
       property_model_objects 0 (a_task 3 "zz" "7")
       (Some (a_task 1 "b" "7")) (Some (a_task 2 "x" "7"))
       (mkDB [a_task 1 "b" "7"; a_task 2 "x" "7"; a_task 3 "zz" "7"] [])
     = (Ok (a_task 3 "n" "7"),
        mkDB [a_task 1 "b" "7"; a_task 2 "x" "7"; a_task 3 "n" "7"] []).
Proof. split; vm_compute; reflexivity. Qed.

(** C5 on a concrete input: the partition has a first object, of rank
    ["m"]; [place_on_top] raises [TypeError] and task 2 keeps its rank. *)
Example place_on_top_example :
  place_on_top constant_rank sample_get_min_rank sample_increment_rank 64 task
    src_model_objects 0 (a_task 2 "t" "7")
    (mkDB [a_task 1 "m" "7"; a_task 2 "t" "7"] [])
  = (Raise TypeError, mkDB [a_task 1 "m" "7"; a_task 2 "t" "7"] []).
Proof. reflexivity. Qed.

(** C1 on a concrete input: the synthesis would signal overflow for the gap
    after the long rank ["bbb"]; on the source as it is the call raises
    [AttributeError] and nothing is rebalanced.  Were [_model] a property,
    the partition would be rebalanced and the synthesis retried once, with
    success, and the placement would still raise: the wrapper ends without
    returning the rank, and unpacking its result raises [TypeError]. *)
Example place_between_overflow_example :
  place_between overflow_on_long sample_get_min_rank sample_increment_rank 64 task
    src_model_objects 0 (a_task 3 "zz" "7")
    (Some (a_task 1 "bbb" "7")) (Some (a_task 2 "x" "7"))
    (mkDB [a_task 1 "bbb" "7"; a_task 2 "x" "7"; a_task 3 "zz" "7"] [])
  = (Raise AttributeError,
     mkDB [a_task 1 "bbb" "7"; a_task 2 "x" "7"; a_task 3 "zz" "7"] [])
  /\ place_between overflow_on_long sample_get_min_rank sample_increment_rank 64 task
       property_model_objects 0 (a_task 3 "zz" "7")
       (Some (a_task 1 "bbb" "7")) (Some (a_task 2 "x" "7"))
       (mkDB [a_task 1 "bbb" "7"; a_task 2 "x" "7"; a_task 3 "zz" "7"] [])
     = (Raise TypeError,
        mkDB [a_task 1 "b" "7"; a_task 2 "c" "7"; a_task 3 "d" "7"] []).
Proof. split; vm_compute; reflexivity. Qed.

(** A component that contains the separator does not survive the round
    trip of C9: the key of a card of board ["7:1"], column ["3"] decodes to
    board ["7"], column ["1"]. *)
Example separator_in_component_example :
  rbind (_with_respect_to_value_key card (a_card 1 "m" "7:1" "3"))
        (reverse_with_respect_to_value_key card)
  = Ok (<["board" := "7"]> {["column" := "1"]}).
Proof. vm_compute. reflexivity. Qed.

(** * Further properties of the code *)

(** ** The order of ranks and the ordered querysets *)

Lemma leb_ltb_or_eq a b :
  String.leb a b = true <-> String.ltb a b = true \/ a = b.
Proof.
  unfold String.leb, String.ltb. split.
  - destruct (String.compare a b) eqn:E; intros H; try discriminate.
    + right. apply String.compare_eq_iff. exact E.
    + left. reflexivity.
  - intros [H| ->].
    + destruct (String.compare a b); congruence.
    + destruct (String.compare b b) eqn:E; try reflexivity.
      exfalso.
      assert (Hlt : String.ltb b b = true).
      { unfold String.ltb. rewrite String.compare_antisym, E. reflexivity. }
      unfold String.ltb in Hlt. rewrite E in Hlt. discriminate.
Qed.

Lemma ltb_not_eq a b : String.ltb a b = true -> a <> b.
Proof.
  intros H ->.
  assert (L : String_as_OT.lt b b).
  { unfold String_as_OT.lt. change (String.compare b b = Lt).
    unfold String.ltb in H. destruct (String.compare b b); congruence. }
  exact (StrictOrder_Irreflexive b L).
Qed.

Lemma leb_trans a b c :
  String.leb a b = true -> String.leb b c = true -> String.leb a c = true.
Proof.
  rewrite !leb_ltb_or_eq. intros [H1| ->] [H2| ->]; eauto using ltb_trans.
Qed.

Global Instance rank_le_trans : Transitive rank_le.
Proof.
  intros a b c. unfold rank_le. rewrite !Is_true_true. apply leb_trans.
Qed.

Global Instance rank_le_total : Total rank_le.
Proof.
  intros a b. unfold rank_le. rewrite !Is_true_true. apply String.leb_total.
Qed.

Global Instance rank_ge_trans : Transitive rank_ge.
Proof. intros a b c Hab Hbc. unfold rank_ge in *. by transitivity b. Qed.

Global Instance rank_ge_total : Total rank_ge.
Proof. intros a b. unfold rank_ge. destruct (total rank_le a b); auto. Qed.



(** ** The class methods [get_first_object], [get_last_object] and their
       rank variants (lines 311-345) *)

Section FirstAndLast.

Variable cls : ModelClass.





End FirstAndLast.




(** ** Decoding a partition key (lines 87-98) *)

Lemma reverse_loop_short fields values :
  forall idx acc,
    idx <= length values ->
    length values < idx + length fields ->
    reverse_loop fields values idx acc = Raise IndexError.
Proof.
  induction fields as [|f fs IH]; intros idx acc Hidx Hlen; simpl in *; [lia|].
  destruct (values !! idx) as [v|] eqn:Hv; [|reflexivity].
  apply lookup_lt_Some in Hv. apply IH; lia.
Qed.

Lemma reverse_loop_lookup fields values :
  forall idx acc,
    idx + length fields <= length values ->
    exists m,
      reverse_loop fields values idx acc = Ok m
      /\ (forall f, f ∉ fields -> m !! f = acc !! f)
      /\ (forall f, f ∈ fields -> is_Some (m !! f))
      /\ (NoDup fields ->
          forall i f, fields !! i = Some f -> m !! f = values !! (idx + i)).
Proof.
  induction fields as [|g fs IH]; intros idx acc Hlen; simpl in *.
  - exists acc. split; [reflexivity|]. split; [reflexivity|].
    split; [intros f Hf; inversion Hf | intros _ i f Hi; discriminate].
  - destruct (values !! idx) as [v|] eqn:Hv;
      [|apply lookup_ge_None in Hv; lia].
    destruct (IH (S idx) (<[g:=v]> acc)) as (m & Hm & Hout & Hin & Hnd); [lia|].
    exists m. split; [exact Hm|]. split; [|split].
    + intros f Hf. rewrite Hout.
      * apply lookup_insert_ne. intros ->. apply Hf. left.
      * intros Hfs. apply Hf. right. exact Hfs.
    + intros f Hf. destruct (decide (f ∈ fs)) as [Hfs|Hfs]; [auto|].
      apply elem_of_cons in Hf as [->|Hf]; [|contradiction].
      rewrite (Hout g Hfs), lookup_insert_eq. eauto.
    + intros Hnodup i f Hi. apply NoDup_cons in Hnodup as [Hg Hfs].
      destruct i as [|i]; simpl in Hi.
      * injection Hi as <-. rewrite (Hout g Hg), lookup_insert_eq, Nat.add_0_r.
        symmetry. exact Hv.
      * rewrite (Hnd Hfs i f Hi). f_equal. lia.
Qed.

(** X4.  For a class with a field list, [reverse_with_respect_to_value_key]
    raises [IndexError] exactly when the key has fewer components (pieces
    between separators) than there are fields.  Otherwise it returns a
    dictionary whose keys are exactly the fields; with distinct fields, the
    i-th field is mapped to the i-th component, and components beyond the
    last field are ignored. *)
Theorem reverse_key_components cls fields key :
  order_with_respect_to cls = Some fields ->
  (length (split SEPARATOR_char key) < length fields ->
   reverse_with_respect_to_value_key cls key = Raise IndexError)
  /\ (length fields <= length (split SEPARATOR_char key) ->
      exists m,
        reverse_with_respect_to_value_key cls key = Ok m
        /\ (forall f, is_Some (m !! f) <-> f ∈ fields)
        /\ (NoDup fields ->
            forall i f, fields !! i = Some f ->
                        m !! f = split SEPARATOR_char key !! i)).
Proof.
  intros Hcls. unfold reverse_with_respect_to_value_key. rewrite Hcls. split.
  - intros Hlen. apply reverse_loop_short; simpl; [lia | exact Hlen].
  - intros Hlen.
    destruct (reverse_loop_lookup fields (split SEPARATOR_char key) 0 ∅)
      as (m & Hm & Hout & Hin & Hnd); [simpl; exact Hlen|].
    exists m. split; [exact Hm|]. split; [|exact Hnd].
    intros f. split; [|apply Hin].
    intros Hsome. destruct (decide (f ∈ fields)) as [Hf|Hf]; [exact Hf|].
    rewrite (Hout f Hf), lookup_empty in Hsome. destruct Hsome; discriminate.
Qed.

Lemma reverse_key_components_witness :
  reverse_with_respect_to_value_key card "7" = Raise IndexError
  /\ exists m, reverse_with_respect_to_value_key card "7:3:extra" = Ok m
               /\ m !! "board" = Some "7" /\ m !! "column" = Some "3".
Proof.
  destruct (reverse_key_components card ["board"; "column"] "7" eq_refl)
    as [Hshort _].
  destruct (reverse_key_components card ["board"; "column"] "7:3:extra" eq_refl)
    as [_ Hlong].
  split; [apply Hshort; vm_compute; lia|].
  destruct Hlong as (m & Hm & _ & Hpos); [vm_compute; lia|].
  exists m. split; [exact Hm|].
  assert (Hnd : NoDup ["board"; "column"])
    by (apply (bool_decide_unpack _); vm_compute; exact I).
  split.
  - rewrite (Hpos Hnd 0 "board" eq_refl). reflexivity.
  - rewrite (Hpos Hnd 1 "column" eq_refl). reflexivity.
Defined.

(** ** What a scheduled rebalancing keeps (lines 222-249) *)

Lemma bulk_update_keeps_rows objs db :
  map pk (items (snd (bulk_update objs db))) = map pk (items db)
  /\ map attrs (items (snd (bulk_update objs db))) = map attrs (items db)
  /\ scheduled (snd (bulk_update objs db)) = scheduled db.
Proof.
  unfold bulk_update. simpl. rewrite !map_map.
  repeat split; apply map_ext; intros row;
    destruct (List.find (has_pk (pk row)) objs); reflexivity.
Qed.

Section ScheduledRebalancingKeeps.

Variable get_min_rank : nat -> result string.
Variable increment_rank : string -> nat -> result string.
Variable cls : ModelClass.

Lemma rebalance_by_scheduled_keeps_rows key db :
  map pk (items (snd (rebalance_by_scheduled get_min_rank increment_rank cls key db)))
  = map pk (items db)
  /\ map attrs (items (snd (rebalance_by_scheduled get_min_rank increment_rank
                              cls key db)))
     = map attrs (items db).
Proof.
  destruct (rebalance_by_scheduled_cases get_min_rank increment_rank cls key db)
    as [[objs ->]|[e ->]].
  - destruct (bulk_update_keeps_rows objs db) as (H1 & H2 & _). auto.
  - auto.
Qed.

(** X5.  Whatever its outcome, [rebalance_by_scheduled] changes nothing but
    ranks: the table keeps its rows in place with their primary keys and
    grouping values, the table of scheduled rebalancings is untouched, and
    when the call raises the whole database is as it was. *)
Theorem rebalance_by_scheduled_only_ranks key db :
  map pk (items (snd (rebalance_by_scheduled get_min_rank increment_rank cls key db)))
  = map pk (items db)
  /\ map attrs (items (snd (rebalance_by_scheduled get_min_rank increment_rank
                              cls key db)))
     = map attrs (items db)
  /\ scheduled (snd (rebalance_by_scheduled get_min_rank increment_rank cls key db))
     = scheduled db
  /\ (forall e db',
        rebalance_by_scheduled get_min_rank increment_rank cls key db = (Raise e, db') ->
        db' = db).
Proof.
  destruct (rebalance_by_scheduled_keeps_rows key db) as [H1 H2].
  split; [exact H1|]. split; [exact H2|].
  split; [apply rebalance_by_scheduled_scheduled|].
  intros e db'. apply rebalance_by_scheduled_raise_keeps.
Qed.


(** X7.  A pass of [resolve], whatever the command's model and whatever
    its outcome, changes nothing but ranks: the rows of the table stay in
    place with their primary keys and grouping values. *)
Theorem resolve_only_ranks self_model now db :
  map pk (items (snd (resolve get_min_rank increment_rank self_model now db)))
  = map pk (items db)
  /\ map attrs (items (snd (resolve get_min_rank increment_rank self_model now db)))
     = map attrs (items db).
Proof.
  unfold resolve.
  destruct (List.filter (is_due now) (scheduled db)) as [|item rest] eqn:Hdue;
    [auto|].
  clear Hdue. generalize (item :: rest) as due. clear item rest.
  intros due. revert db. induction due as [|item rest IH]; intros db; [auto|].
  simpl. destruct self_model as [c|]; [|auto].
  unfold bind.
  destruct (rebalance_by_scheduled get_min_rank increment_rank c
              (with_respect_to item) db) as [[[]|e] db1] eqn:Hrun.
  - destruct (IH db1) as [H1 H2].
    assert (Hk : map pk (items db1) = map pk (items db)
                 /\ map attrs (items db1) = map attrs (items db)).
    { destruct (rebalance_by_scheduled_cases get_min_rank increment_rank c
                  (with_respect_to item) db) as [[objs Ho]|[e Ho]];
        rewrite Ho in Hrun; [|discriminate].
      pose proof (bulk_update_keeps_rows objs db) as (K1 & K2 & _).
      rewrite Hrun in K1, K2. auto. }
    destruct Hk as [K1 K2]. rewrite H1, H2. auto.
  - simpl.
    assert (db1 = db) as ->
      by (eapply rebalance_by_scheduled_raise_keeps; eauto).
    auto.
Qed.

End ScheduledRebalancingKeeps.


(** ** A scheduled rebalancing keeps the order, and running it again
       changes nothing *)


Lemma updated_row_pk objs row : pk (updated_row objs row) = pk row.
Proof. unfold updated_row. destruct (List.find _ objs); reflexivity. Qed.

Lemma updated_row_matches kw objs row :
  matches kw (updated_row objs row) = matches kw row.
Proof. unfold updated_row. destruct (List.find _ objs); reflexivity. Qed.

Lemma updated_row_twice objs row :
  updated_row objs (updated_row objs row) = updated_row objs row.
Proof.
  unfold updated_row at 1. rewrite updated_row_pk.
  unfold updated_row. destruct (List.find _ objs); reflexivity.
Qed.

Lemma objects_filter_updated kw objs rows :
  objects_filter kw (map (updated_row objs) rows)
  = map (updated_row objs) (objects_filter kw rows).
Proof.
  unfold objects_filter. induction rows as [|row rest IH]; [reflexivity|].
  simpl. rewrite updated_row_matches.
  destruct (matches kw row); simpl; rewrite IH; reflexivity.
Qed.

Lemma with_ranks_length qs ks :
  length ks = length qs -> length (with_ranks qs ks) = length qs.
Proof. intros H. unfold with_ranks. rewrite length_zip_with. lia. Qed.

Lemma with_ranks_ranks qs :
  forall ks, length ks = length qs -> map rank (with_ranks qs ks) = ks.
Proof.
  induction qs as [|o rest IH]; intros [|k ks] H; try discriminate; [reflexivity|].
  simpl in *. f_equal. apply IH. lia.
Qed.

Lemma with_ranks_pks qs :
  forall ks, length ks = length qs -> map pk (with_ranks qs ks) = map pk qs.
Proof.
  induction qs as [|o rest IH]; intros [|k ks] H; try discriminate; [reflexivity|].
  simpl in *. f_equal. apply IH. lia.
Qed.

Lemma with_ranks_attrs qs :
  forall ks, length ks = length qs -> map attrs (with_ranks qs ks) = map attrs qs.
Proof.
  induction qs as [|o rest IH]; intros [|k ks] H; try discriminate; [reflexivity|].
  simpl in *. f_equal. apply IH. lia.
Qed.

Lemma with_ranks_twice qs :
  forall ks, with_ranks (with_ranks qs ks) ks = with_ranks qs ks.
Proof.
  induction qs as [|o rest IH]; intros [|k ks]; try reflexivity.
  simpl. f_equal. apply IH.
Qed.

Lemma with_ranks_lookup qs ks i o k :
  qs !! i = Some o -> ks !! i = Some k ->
  with_ranks qs ks !! i = Some (set_rank k o).
Proof.
  intros Ho Hk. unfold with_ranks. rewrite lookup_zip_with, Ho. simpl.
  rewrite Hk. reflexivity.
Qed.

Lemma updated_rows_of_partition qs ks :
  NoDup (map pk qs) -> length ks = length qs ->
  map (updated_row (with_ranks qs ks)) qs = with_ranks qs ks.
Proof.
  intros Hnd Hlen. apply list_eq. intros i.
  rewrite list_lookup_fmap.
  destruct (qs !! i) as [o|] eqn:Ho; simpl.
  - destruct (ks !! i) as [k|] eqn:Hk.
    + rewrite (with_ranks_lookup _ _ _ _ _ Ho Hk). f_equal.
      unfold updated_row.
      rewrite (find_with_ranks_hit qs ks i o k Hnd Ho Hk). reflexivity.
    + apply lookup_ge_None in Hk. apply lookup_lt_Some in Ho. lia.
  - symmetry. apply lookup_ge_None. rewrite with_ranks_length by exact Hlen.
    apply lookup_ge_None. exact Ho.
Qed.


Lemma StronglySorted_lookup {A} (R : relation A) (l : list A) :
  (forall i j x y, i < j -> l !! i = Some x -> l !! j = Some y -> R x y) ->
  StronglySorted R l.
Proof.
  induction l as [|a l IH]; intros H; constructor.
  - apply IH. intros i j x y Hij Hi Hj. apply (H (S i) (S j)); auto. lia.
  - apply Forall_forall. intros y Hy.
    apply list_elem_of_lookup in Hy as [j Hj].
    apply (H 0 (S j)); auto. lia.
Qed.

Lemma increasing_NoDup (ks : list string) :
  (forall i j a b, i < j -> ks !! i = Some a -> ks !! j = Some b ->
                   String.ltb a b = true) ->
  NoDup ks.
Proof.
  intros H. apply NoDup_alt. intros i j x Hi Hj.
  destruct (Nat.lt_trichotomy i j) as [Hlt|[Heq|Hgt]]; [|exact Heq|].
  - exfalso. exact (ltb_not_eq _ _ (H i j x x Hlt Hi Hj) eq_refl).
  - exfalso. exact (ltb_not_eq _ _ (H j i x x Hgt Hj Hi) eq_refl).
Qed.

(** A list of rows whose ranks increase strictly is the rank order of each
    of its permutations. *)
Lemma order_by_rank_of_increasing rows sorted :
  rows ≡ₚ sorted ->
  (forall i j a b, i < j -> sorted !! i = Some a -> sorted !! j = Some b ->
                   String.ltb (rank a) (rank b) = true) ->
  order_by_rank rows = sorted.
Proof.
  intros Hperm Hinc. unfold order_by_rank.
  apply (StronglySorted_unique_strong rank_le).
  - intros x1 x2 Hx1 Hx2 H12 H21.
    rewrite (merge_sort_Permutation rank_le rows), Hperm in Hx1.
    apply list_elem_of_lookup in Hx1 as [i Hi].
    apply list_elem_of_lookup in Hx2 as [j Hj].
    unfold rank_le in H12, H21. apply Is_true_true in H12, H21.
    pose proof (String.leb_antisym _ _ H12 H21) as Heq.
    destruct (Nat.lt_trichotomy i j) as [Hlt|[->|Hgt]].
    + exfalso. exact (ltb_not_eq _ _ (Hinc i j x1 x2 Hlt Hi Hj) Heq).
    + congruence.
    + exfalso. symmetry in Heq.
      exact (ltb_not_eq _ _ (Hinc j i x2 x1 Hgt Hj Hi) Heq).
  - apply StronglySorted_merge_sort; apply _.
  - apply StronglySorted_lookup. intros i j x y Hij Hi Hj.
    unfold rank_le. apply Is_true_true, leb_ltb_or_eq. left. eauto.
  - rewrite (merge_sort_Permutation rank_le rows). exact Hperm.
Qed.

Section AfterRebalancing.

Variable get_min_rank : nat -> result string.
Variable increment_rank : string -> nat -> result string.
Variable cls : ModelClass.
Variable key : string.
Variable kw : gmap string string.
Variable k0 : string.
Variable ks : list string.
Variable db : DB.

Hypothesis decoded : reverse_with_respect_to_value_key cls key = Ok kw.
Hypothesis distinct_pks : NoDup (map pk (items db)).
Hypothesis min_rank :
  get_min_rank (length (objects_filter kw (items db))) = Ok k0.
Hypothesis ranks :
  rank_chain increment_rank k0 (length (objects_filter kw (items db)))
    (length (objects_filter kw (items db))) = Ok ks.
Hypothesis increasing :
  forall a b, a ∈ ks ->
    increment_rank a (length (objects_filter kw (items db))) = Ok b ->
    String.ltb a b = true.

Local Abbreviation in_rank_order := (order_by_rank (objects_filter kw (items db))).
Local Abbreviation after :=
  (snd (rebalance_by_scheduled get_min_rank increment_rank cls key db)).

Lemma ranks_length : length ks = length in_rank_order.
Proof.
  rewrite order_by_rank_length. eapply rank_chain_length. exact ranks.
Qed.

Lemma after_items :
  rebalance_by_scheduled get_min_rank increment_rank cls key db = (Ok tt, after)
  /\ items after = map (updated_row (with_ranks in_rank_order ks)) (items db).
Proof.
  rewrite (rebalance_by_scheduled_run _ _ _ _ _ _ _ _ decoded min_rank ranks).
  split; reflexivity.
Qed.

Lemma after_partition :
  objects_filter kw (items after) ≡ₚ with_ranks in_rank_order ks.
Proof.
  destruct after_items as [_ ->].
  rewrite objects_filter_updated.
  etransitivity;
    [apply Permutation_map; symmetry; apply order_by_rank_perm|].
  rewrite updated_rows_of_partition;
    [reflexivity | apply NoDup_pk_filter; exact distinct_pks | exact ranks_length].
Qed.

Lemma ranks_increasing i j a b :
  i < j -> ks !! i = Some a -> ks !! j = Some b -> String.ltb a b = true.
Proof.
  intros Hij Hi Hj. replace j with (S (i + (j - S i))) in Hj by lia.
  eapply rank_chain_increasing; eauto.
Qed.

Lemma after_order :
  order_by_rank (objects_filter kw (items after)) = with_ranks in_rank_order ks.
Proof.
  apply order_by_rank_of_increasing; [exact after_partition|].
  intros i j a b Hij Hi Hj.
  assert (Hr : map rank (with_ranks in_rank_order ks) = ks)
    by (apply with_ranks_ranks, ranks_length).
  apply (ranks_increasing i j); [exact Hij| |].
  - rewrite <- Hr, list_lookup_fmap, Hi. reflexivity.
  - rewrite <- Hr, list_lookup_fmap, Hj. reflexivity.
Qed.

(** X8.  When the increments increase the ranks, a successful
    [rebalance_by_scheduled] keeps the order of the partition: read in rank
    order after the pass, the partition shows the same objects (primary
    keys) in the same sequence as before the pass, carrying the new ranks
    in sequence. *)
Theorem rebalance_by_scheduled_keeps_order :
  map pk (order_by_rank (objects_filter kw (items after))) = map pk in_rank_order
  /\ map attrs (order_by_rank (objects_filter kw (items after)))
     = map attrs in_rank_order
  /\ map rank (order_by_rank (objects_filter kw (items after))) = ks.
Proof.
  rewrite after_order. split; [|split].
  - apply with_ranks_pks, ranks_length.
  - apply with_ranks_attrs, ranks_length.
  - apply with_ranks_ranks, ranks_length.
Qed.

(** Under the same conditions, a second pass with the same key on the
    result returns and changes nothing. *)
Lemma rebalance_by_scheduled_again :
  rebalance_by_scheduled get_min_rank increment_rank cls key after = (Ok tt, after).
Proof.
  assert (Hlen : length (objects_filter kw (items after))
                 = length (objects_filter kw (items db))).
  { rewrite after_partition, with_ranks_length by exact ranks_length.
    apply order_by_rank_length. }
  rewrite (rebalance_by_scheduled_run get_min_rank increment_rank cls key kw k0 ks
             after decoded).
  - rewrite after_order, with_ranks_twice.
    unfold bulk_update. f_equal.
    destruct after_items as [_ Hitems].
    destruct after as [its sch] eqn:E. unfold set_items. simpl in *. f_equal.
    rewrite Hitems, map_map. apply map_ext. intros row. apply updated_row_twice.
  - rewrite Hlen. exact min_rank.
  - rewrite Hlen. exact ranks.
Qed.

(** X10.  Under the same conditions, after the pass no two rows of the
    partition carry the same rank. *)
Theorem rebalance_by_scheduled_distinct_ranks :
  NoDup (map rank (objects_filter kw (items after))).
Proof.
  rewrite after_partition, with_ranks_ranks by exact ranks_length.
  apply increasing_NoDup. exact ranks_increasing.
Qed.

(** X11.  Under the same conditions, the object [get_first_object]
    returns for the partition before the pass is the one it returns after
    the pass, now carrying the increment of the minimum rank. *)
Theorem first_object_stays_first o :
  get_first_object cls (Some kw) db = (Ok (Some o), db) ->
  exists k1,
    increment_rank k0 (length (objects_filter kw (items db))) = Ok k1
    /\ get_first_object cls (Some kw) after = (Ok (Some (set_rank k1 o)), after).
Proof.
  unfold get_first_object.
  destruct (kwargs_missing cls kw); [discriminate|].
  intros Hfirst. injection Hfirst as Hhead.
  rewrite after_order.
  pose proof ranks_length as Hlen.
  destruct in_rank_order as [|o' rest]; [discriminate|].
  simpl in Hhead. injection Hhead as ->.
  destruct ks as [|k1 ks'] eqn:Eks; [discriminate|].
  exists k1. split; [|reflexivity].
  eapply rank_chain_first; [exact ranks|reflexivity].
Qed.

End AfterRebalancing.

Section OtherPartitions.

Variable get_min_rank : nat -> result string.
Variable increment_rank : string -> nat -> result string.
Variable cls : ModelClass.



End OtherPartitions.

(** The conditions of X8 to X11 hold for the sample table. *)
Ltac sample_pass :=
  first
    [ vm_compute; reflexivity
    | apply (bool_decide_unpack _); vm_compute; exact I
    | let a := fresh "a" in
      let b := fresh "b" in
      let Ha := fresh "Ha" in
      let Hb := fresh "Hb" in
      intros a b Ha Hb;
      apply elem_of_cons in Ha as [->|Ha];
      [|apply elem_of_cons in Ha as [->|Ha]; [|inversion Ha]];
      vm_compute in Hb; injection Hb as <-; reflexivity ].

Lemma rebalance_by_scheduled_keeps_order_witness :
  map pk (order_by_rank
            (objects_filter board7_column3
               (items (snd (rebalance_by_scheduled sample_get_min_rank
                              sample_increment_rank card "7:3" sample_cards)))))
  = [2; 1]
  /\ map rank (order_by_rank
                 (objects_filter board7_column3
                    (items (snd (rebalance_by_scheduled sample_get_min_rank
                                   sample_increment_rank card "7:3" sample_cards)))))
     = ["b"; "c"].
Proof.
  destruct (rebalance_by_scheduled_keeps_order
              sample_get_min_rank sample_increment_rank card "7:3"
              board7_column3 "a" ["b"; "c"] sample_cards)
    as (Hpk & _ & Hrank); [sample_pass..|].
  split; [|exact Hrank].
  etransitivity; [exact Hpk | vm_compute; reflexivity].
Defined.

Lemma rebalance_by_scheduled_distinct_ranks_witness :
  NoDup (map rank
           (objects_filter board7_column3
              (items (snd (rebalance_by_scheduled sample_get_min_rank
                             sample_increment_rank card "7:3" sample_cards))))).
Proof.
  apply (rebalance_by_scheduled_distinct_ranks
           sample_get_min_rank sample_increment_rank card "7:3"
           board7_column3 "a" ["b"; "c"] sample_cards); sample_pass.
Defined.

Lemma first_object_stays_first_witness :
  exists k1,
    sample_increment_rank "a" 2 = Ok k1
    /\ get_first_object card (Some board7_column3)
         (snd (rebalance_by_scheduled sample_get_min_rank sample_increment_rank
                 card "7:3" sample_cards))
       = (Ok (Some (set_rank k1 (a_card 2 "q" "7" "3"))),
          snd (rebalance_by_scheduled sample_get_min_rank sample_increment_rank
                 card "7:3" sample_cards)).
Proof.
  apply (first_object_stays_first
           sample_get_min_rank sample_increment_rank card "7:3"
           board7_column3 "a" ["b"; "c"] sample_cards); sample_pass.
Defined.


(** ** Scheduling and asking whether a rebalancing is scheduled
       (lines 301-309 and 347-351) *)

Lemma existsb_filter_nonempty {A} (p : A -> bool) (l : list A) :
  existsb p l = match List.filter p l with [] => false | _ :: _ => true end.
Proof.
  induction l as [|x xs IH]; [reflexivity|]. simpl.
  destruct (p x); simpl; [reflexivity | exact IH].
Qed.

Lemma value_key_raises cls self e :
  _with_respect_to_value_key cls self = Raise e -> e = AttributeError.
Proof.
  unfold _with_respect_to_value_key, _with_respect_to_value.
  generalize (wrt_fields cls) as fields.
  induction fields as [|f fs IH]; simpl; [discriminate|].
  unfold getattr_pk at 1. destruct (attrs self !! f); simpl; [|congruence].
  destruct (rmapM (getattr_pk self) fs) as [vs|e']; simpl in *; [discriminate|].
  intros H. injection H as <-. apply IH. reflexivity.
Qed.

(** X13.  After a call of [schedule_rebalancing] that returns,
    [rebalancing_scheduled] answers [True] for the same object, and the
    ranked table is as it was before the call. *)
Theorem scheduled_after_scheduling cls now self db db' :
  schedule_rebalancing cls now self db = (Ok tt, db') ->
  rebalancing_scheduled cls self db' = (Ok true, db')
  /\ items db' = items db.
Proof.
  unfold schedule_rebalancing, rebalancing_scheduled, bind, lift.
  destruct (_with_respect_to_value_key cls self) as [key|e]; [|discriminate].
  unfold update_or_create. rewrite existsb_filter_nonempty.
  destruct (List.filter (same_schedule (model_name cls) key) (scheduled db))
    as [|r [|r' rest]] eqn:Hf; intros H; [| |discriminate];
    injection H as <-.
  - simpl. rewrite (filter_after_create _ _ _ _ Hf). auto.
  - rewrite Hf. auto.
Qed.

Lemma scheduled_after_scheduling_witness :
  rebalancing_scheduled task (a_task 1 "m" "7")
    (mkDB [a_task 1 "m" "7"] [mkScheduled "task" "7" 4])
  = (Ok true, mkDB [a_task 1 "m" "7"] [mkScheduled "task" "7" 4]).
Proof.
  apply (scheduled_after_scheduling task 4 (a_task 1 "m" "7")
           (mkDB [a_task 1 "m" "7"] [])).
  vm_compute. reflexivity.
Defined.

(** X14.  Scheduling a rebalancing for one partition does not change what
    [rebalancing_scheduled] answers for an object of another model or of
    another partition key. *)
Theorem scheduling_leaves_other_partitions cls1 cls2 now self1 self2 key1 key2
    db r db' :
  _with_respect_to_value_key cls1 self1 = Ok key1 ->
  _with_respect_to_value_key cls2 self2 = Ok key2 ->
  model_name cls1 <> model_name cls2 \/ key1 <> key2 ->
  schedule_rebalancing cls1 now self1 db = (r, db') ->
  fst (rebalancing_scheduled cls2 self2 db') = fst (rebalancing_scheduled cls2 self2 db).
Proof.
  intros Hk1 Hk2 Hdiff.
  unfold schedule_rebalancing, rebalancing_scheduled, bind, lift.
  rewrite Hk1, Hk2. unfold update_or_create.
  destruct (List.filter (same_schedule (model_name cls1) key1) (scheduled db))
    as [|x [|y rest]]; intros H; injection H as <- <-; try reflexivity.
  simpl. rewrite existsb_app. simpl.
  assert (Hno : same_schedule (model_name cls2) key2
                  (mkScheduled (model_name cls1) key1 now) = false).
  { unfold same_schedule. simpl. apply andb_false_iff.
    destruct Hdiff as [Hm|Hk]; [left|right]; apply String.eqb_neq; congruence. }
  rewrite Hno, !orb_false_r. reflexivity.
Qed.

Lemma scheduling_leaves_other_partitions_witness :
  fst (rebalancing_scheduled task (a_task 2 "m" "8")
         (mkDB [a_task 1 "m" "7"; a_task 2 "m" "8"] [mkScheduled "task" "7" 4]))
  = fst (rebalancing_scheduled task (a_task 2 "m" "8")
           (mkDB [a_task 1 "m" "7"; a_task 2 "m" "8"] [])).
Proof.
  apply (scheduling_leaves_other_partitions task task 4
           (a_task 1 "m" "7") (a_task 2 "m" "8") "7" "8"
           (mkDB [a_task 1 "m" "7"; a_task 2 "m" "8"] []) (Ok tt)).
  - vm_compute. reflexivity.
  - vm_compute. reflexivity.
  - right. discriminate.
  - vm_compute. reflexivity.
Defined.

Lemma schedule_rebalancing_step cls now self db r db' :
  (forall m w, at_most_one_request m w db) ->
  schedule_rebalancing cls now self db = (r, db') ->
  (forall m w, at_most_one_request m w db')
  /\ r <> Raise MultipleObjectsReturned
  /\ items db' = items db.
Proof.
  intros Hone. unfold schedule_rebalancing, bind, lift.
  destruct (_with_respect_to_value_key cls self) as [key|e] eqn:Hkey.
  - intros Hrun. split; [|split].
    + intros m w. eapply update_or_create_at_most_one; eauto.
    + specialize (Hone (model_name cls) key).
      unfold at_most_one_request in Hone. unfold update_or_create in Hrun.
      destruct (List.filter _ (scheduled db)) as [|x [|y rest]];
        [| |simpl in Hone; lia]; injection Hrun as <- <-; discriminate.
    + unfold update_or_create in Hrun.
      destruct (List.filter _ (scheduled db)) as [|x [|y rest]];
        injection Hrun as <- <-; reflexivity.
  - intros Hrun. injection Hrun as <- <-.
    apply value_key_raises in Hkey. subst e.
    split; [exact Hone|]. split; [discriminate|reflexivity].
Qed.

(** X15.  Calls of [schedule_rebalancing], for any objects of any model
    classes at any times, keep the table of scheduled rebalancings free of
    duplicates: if no (model, partition key) has more than one request
    before the calls, none has after them; no call raises
    [MultipleObjectsReturned]; and the ranked table is never touched. *)
Theorem scheduling_keeps_requests_unique
    (calls : list (ModelClass * nat * RankedItem)) db :
  (forall m w, at_most_one_request m w db) ->
  (forall m w,
     at_most_one_request m w
       (snd (run_each
               (map (fun c => schedule_rebalancing (fst (fst c)) (snd (fst c)) (snd c))
                    calls) db)))
  /\ fst (run_each
            (map (fun c => schedule_rebalancing (fst (fst c)) (snd (fst c)) (snd c))
                 calls) db)
     <> Raise MultipleObjectsReturned
  /\ items (snd (run_each
                   (map (fun c => schedule_rebalancing (fst (fst c)) (snd (fst c))
                                    (snd c))
                        calls) db))
     = items db.
Proof.
  revert db. induction calls as [|[[c t] s] rest IH]; intros db Hone; simpl.
  - split; [exact Hone|]. split; [discriminate|reflexivity].
  - unfold bind.
    destruct (schedule_rebalancing c t s db) as [r db1] eqn:Hstep.
    destruct (schedule_rebalancing_step _ _ _ _ _ _ Hone Hstep) as (H1 & H2 & H3).
    destruct r as [[]|e]; simpl.
    + destruct (IH db1 H1) as (K1 & K2 & K3).
      split; [exact K1|]. split; [exact K2|]. rewrite K3. exact H3.
    + split; [exact H1|]. split; [exact H2|exact H3].
Qed.

Lemma scheduling_keeps_requests_unique_witness :
  at_most_one_request "task" "7"
    (snd (run_each
            (map (fun c => schedule_rebalancing (fst (fst c)) (snd (fst c)) (snd c))
                 [(task, 1, a_task 1 "m" "7"); (card, 2, a_card 1 "m" "7" "3");
                  (task, 3, a_task 2 "n" "7")])
            (mkDB [] [])))
  /\ fst (run_each
            (map (fun c => schedule_rebalancing (fst (fst c)) (snd (fst c)) (snd c))
                 [(task, 1, a_task 1 "m" "7"); (card, 2, a_card 1 "m" "7" "3");
                  (task, 3, a_task 2 "n" "7")])
            (mkDB [] []))
     <> Raise MultipleObjectsReturned.
Proof.
  destruct (scheduling_keeps_requests_unique
              [(task, 1, a_task 1 "m" "7"); (card, 2, a_card 1 "m" "7" "3");
               (task, 3, a_task 2 "n" "7")] (mkDB [] []))
    as (Hone & Hok & _).
  - intros m w. unfold at_most_one_request. simpl. lia.
  - split; [apply Hone | exact Hok].
Defined.

(** ** More on the command (base_rebalance.py, lines 9-20) *)

Section CommandMore.

Variable get_min_rank : nat -> result string.
Variable increment_rank : string -> nat -> result string.

(** X16.  When no request is due, [handle] returns without touching the
    database, whatever the command's model, the default [None] included;
    when some request is due and the command's model is still the default
    [None], it raises [AttributeError] and touches nothing. *)
Theorem handle_without_due_or_model now db :
  (List.filter (is_due now) (scheduled db) = [] ->
   forall self_model,
     handle get_min_rank increment_rank self_model now db = (Ok tt, db))
  /\ (List.filter (is_due now) (scheduled db) <> [] ->
      handle get_min_rank increment_rank None now db = (Raise AttributeError, db)).
Proof.
  unfold handle, resolve. split.
  - intros -> self_model. reflexivity.
  - intros Hdue.
    destruct (List.filter (is_due now) (scheduled db)); [congruence|reflexivity].
Qed.

Lemma rebalance_by_scheduled_other_table cls key sch db :
  rebalance_by_scheduled get_min_rank increment_rank cls key (set_scheduled sch db)
  = (fst (rebalance_by_scheduled get_min_rank increment_rank cls key db),
     set_scheduled sch
       (snd (rebalance_by_scheduled get_min_rank increment_rank cls key db))).
Proof.
  unfold rebalance_by_scheduled, bind, lift, atomic, post_rebalance_by_scheduled.
  destruct (reverse_with_respect_to_value_key cls key) as [kw|e]; [|reflexivity].
  cbn beta iota. simpl items.
  destruct (get_min_rank (length (objects_filter kw (items db)))) as [k0|e];
    [|reflexivity].
  rewrite !rebalance_loop_const. simpl items.
  destruct (rank_chain increment_rank k0 _ _) as [ks|e]; reflexivity.
Qed.

Lemma resolve_loop_other_table self_model due :
  forall sch db,
    resolve_loop get_min_rank increment_rank self_model due (set_scheduled sch db)
    = (fst (resolve_loop get_min_rank increment_rank self_model due db),
       set_scheduled sch
         (snd (resolve_loop get_min_rank increment_rank self_model due db))).
Proof.
  induction due as [|item rest IH]; intros sch db; simpl; [reflexivity|].
  destruct self_model as [c|]; [|reflexivity].
  unfold bind. rewrite rebalance_by_scheduled_other_table.
  destruct (rebalance_by_scheduled get_min_rank increment_rank c
              (with_respect_to item) db) as [[[]|e] db1]; simpl.
  - apply IH.
  - reflexivity.
Qed.

(** X17.  [resolve] never looks at the [model] column of a request:
    rewriting that column in any way leaves the outcome of the pass and the
    ranks it writes the same.  A request recorded for another model is run
    against the command's model. *)
Theorem resolve_ignores_model_column f self_model now db :
  resolve get_min_rank increment_rank self_model now (relabel_models f db)
  = (fst (resolve get_min_rank increment_rank self_model now db),
     relabel_models f (snd (resolve get_min_rank increment_rank self_model now db))).
Proof.
  assert (Hdue : forall rows,
             List.filter (is_due now)
               (map (fun r => mkScheduled (f r) (with_respect_to r) (scheduled_at r))
                    rows)
             = map (fun r => mkScheduled (f r) (with_respect_to r) (scheduled_at r))
                 (List.filter (is_due now) rows)).
  { induction rows as [|r rest IH]; [reflexivity|]. simpl.
    change (is_due now (mkScheduled (f r) (with_respect_to r) (scheduled_at r)))
      with (is_due now r).
    destruct (is_due now r); simpl; rewrite IH; reflexivity. }
  assert (Hloop : forall due d,
             resolve_loop get_min_rank increment_rank self_model
               (map (fun r => mkScheduled (f r) (with_respect_to r) (scheduled_at r))
                    due) d
             = resolve_loop get_min_rank increment_rank self_model due d).
  { induction due as [|item rest IH]; intros d; simpl; [reflexivity|].
    destruct self_model; [|reflexivity].
    unfold bind. destruct (rebalance_by_scheduled _ _ _ _ d) as [[[]|e] d1];
      [apply IH | reflexivity]. }
  assert (Hsch : forall d, scheduled (snd (resolve get_min_rank increment_rank
                                             self_model now d)) = scheduled d).
  { intros d. unfold resolve.
    destruct (List.filter (is_due now) (scheduled d)) as [|item rest]; [reflexivity|].
    generalize (item :: rest) as due. intros due. revert d.
    induction due as [|i r IH]; intros d; simpl; [reflexivity|].
    destruct self_model as [c|]; [|reflexivity].
    unfold bind.
    pose proof (rebalance_by_scheduled_scheduled get_min_rank increment_rank c
                  (with_respect_to i) d) as Hs.
    destruct (rebalance_by_scheduled _ _ _ _ d) as [[[]|e] d1]; simpl in *.
    - rewrite IH. exact Hs.
    - exact Hs. }
  unfold resolve at 1. unfold relabel_models at 1. simpl scheduled.
  rewrite Hdue.
  destruct (List.filter (is_due now) (scheduled db)) as [|item rest] eqn:E.
  - unfold resolve. rewrite E. reflexivity.
  - assert (Hres : resolve get_min_rank increment_rank self_model now db
                   = resolve_loop get_min_rank increment_rank self_model
                       (item :: rest) db)
      by (unfold resolve; rewrite E; reflexivity).
    transitivity
      (resolve_loop get_min_rank increment_rank self_model
         (map (fun r => mkScheduled (f r) (with_respect_to r) (scheduled_at r))
              (item :: rest))
         (set_scheduled
            (map (fun r => mkScheduled (f r) (with_respect_to r) (scheduled_at r))
                 (scheduled db)) db));
      [reflexivity|].
    rewrite Hloop, resolve_loop_other_table, <- Hres.
    f_equal. unfold relabel_models. rewrite Hsch.
    unfold set_scheduled. simpl. reflexivity.
Qed.

(** X18.  For a model class that keeps the default
    [order_with_respect_to = None], [rebalance_by_scheduled] raises
    [TypeError] for every key and touches nothing; so does every pass of
    [resolve] that finds a request due; and a request recorded by
    [schedule_rebalancing] at time [t] makes every pass from [t] on raise. *)
Theorem ungrouped_model_is_never_rebalanced cls :
  order_with_respect_to cls = None ->
  (forall key db,
     rebalance_by_scheduled get_min_rank increment_rank cls key db
     = (Raise TypeError, db))
  /\ (forall now db,
        List.filter (is_due now) (scheduled db) <> [] ->
        resolve get_min_rank increment_rank (Some cls) now db = (Raise TypeError, db))
  /\ (forall t self db now,
        List.filter (same_schedule (model_name cls) "") (scheduled db) = [] ->
        t <= now ->
        exists db1,
          schedule_rebalancing cls t self db = (Ok tt, db1)
          /\ resolve get_min_rank increment_rank (Some cls) now db1
             = (Raise TypeError, db1)).
Proof.
  intros Hcls.
  assert (Hrun : forall key db,
             rebalance_by_scheduled get_min_rank increment_rank cls key db
             = (Raise TypeError, db)).
  { intros key db.
    unfold rebalance_by_scheduled, reverse_with_respect_to_value_key, bind, lift.
    rewrite Hcls. reflexivity. }
  assert (Hpass : forall now db,
             List.filter (is_due now) (scheduled db) <> [] ->
             resolve get_min_rank increment_rank (Some cls) now db
             = (Raise TypeError, db)).
  { intros now db Hdue. unfold resolve.
    destruct (List.filter (is_due now) (scheduled db)) as [|item rest];
      [congruence|].
    simpl. unfold bind. rewrite Hrun. reflexivity. }
  split; [exact Hrun|]. split; [exact Hpass|].
  intros t self db now Hfresh Hle.
  assert (Hkey : _with_respect_to_value_key cls self = Ok "").
  { unfold _with_respect_to_value_key, _with_respect_to_value, wrt_fields.
    rewrite Hcls. reflexivity. }
  eexists. split.
  - unfold schedule_rebalancing, bind, lift. rewrite Hkey.
    apply update_or_create_fresh. exact Hfresh.
  - apply Hpass. simpl. rewrite List.filter_app. simpl.
    unfold is_due at 2. simpl.
    assert (Hdue : Nat.leb t now = true) by (apply Nat.leb_le; exact Hle).
    rewrite Hdue. intros Habs. apply app_eq_nil in Habs as [_ Habs]. discriminate.
Qed.

End CommandMore.

Lemma ungrouped_model_is_never_rebalanced_witness :
  rebalance_by_scheduled sample_get_min_rank sample_increment_rank
    (mkClass "note" None) "" (mkDB [mkItem 1 "m" ∅] [])
  = (Raise TypeError, mkDB [mkItem 1 "m" ∅] []).
Proof.
  destruct (ungrouped_model_is_never_rebalanced
              sample_get_min_rank sample_increment_rank (mkClass "note" None))
    as [Hrun _].
  - reflexivity.
  - apply Hrun.
Defined.

(** ** The keywords of an object's own partition (lines 64-85) *)

Lemma rmapM_getattr_ok self fields :
  (forall f, f ∈ fields -> is_Some (attrs self !! f)) ->
  exists vs, rmapM (getattr_pk self) fields = Ok vs.
Proof.
  induction fields as [|f fs IH]; intros Hall; simpl; [eauto|].
  destruct (Hall f) as [v Hv]; [left|].
  unfold getattr_pk at 1. rewrite Hv. simpl.
  destruct IH as [vs Hvs]; [intros g Hg; apply Hall; right; exact Hg|].
  rewrite Hvs. simpl. eauto.
Qed.

Lemma rmapM_getattr_missing self fields f :
  f ∈ fields -> attrs self !! f = None ->
  rmapM (getattr_pk self) fields = Raise AttributeError.
Proof.
  induction fields as [|g gs IH]; intros Hin Hnone; [inversion Hin|]. simpl.
  unfold getattr_pk at 1.
  destruct (attrs self !! g) as [v|] eqn:Hg; simpl; [|reflexivity].
  apply elem_of_cons in Hin as [->|Hin]; [congruence|].
  rewrite (IH Hin Hnone). reflexivity.
Qed.

(** X19.  [_with_respect_to_value] and [_with_respect_to_value_key]
    succeed exactly when the object is grouped by a related object in every
    grouping field, and raise [AttributeError] otherwise.  When they succeed
    the tuple has one component per field, the key is the components joined
    by the separator, and [_with_respect_to_kwargs] returns a dictionary that
    has exactly the grouping fields as keys, maps each to the object's value
    for it, and matches the object itself. *)
Theorem own_partition_keywords cls self :
  ((forall f, f ∈ wrt_fields cls -> is_Some (attrs self !! f)) ->
   exists kw vs,
     _with_respect_to_kwargs cls self = Ok kw
     /\ _with_respect_to_value cls self = Ok vs
     /\ _with_respect_to_value_key cls self = Ok (join SEPARATOR vs)
     /\ length vs = length (wrt_fields cls)
     /\ (forall f, is_Some (kw !! f) <-> f ∈ wrt_fields cls)
     /\ (forall f, f ∈ wrt_fields cls -> kw !! f = attrs self !! f)
     /\ matches kw self = true)
  /\ (forall f, f ∈ wrt_fields cls -> attrs self !! f = None ->
        _with_respect_to_value cls self = Raise AttributeError
        /\ _with_respect_to_value_key cls self = Raise AttributeError).
Proof.
  split.
  - intros Hall.
    destruct (rmapM_getattr_ok self (wrt_fields cls) Hall) as [vs Hvs].
    destruct (kwargs_loop_total self (wrt_fields cls) vs ∅ Hvs) as [kw Hkw].
    exists kw, vs. split; [exact Hkw|]. split; [exact Hvs|].
    split; [unfold _with_respect_to_value_key, _with_respect_to_value;
            rewrite Hvs; reflexivity|].
    split; [eapply rmapM_length; eauto|].
    split; [|split].
    + intros f. destruct (kwargs_loop_lookup self _ ∅ kw Hkw f) as [Hin Hout].
      split; [|intros Hf; apply Hin; exact Hf].
      intros Hsome. destruct (decide (f ∈ wrt_fields cls)) as [Hf|Hf]; [exact Hf|].
      rewrite (Hout Hf), lookup_empty in Hsome. destruct Hsome; discriminate.
    + intros f Hf. destruct (kwargs_loop_lookup self _ ∅ kw Hkw f) as [Hin _].
      apply Hin. exact Hf.
    + eapply matches_own_kwargs. exact Hkw.
  - intros f Hf Hnone.
    assert (Hv : _with_respect_to_value cls self = Raise AttributeError)
      by (apply (rmapM_getattr_missing self _ f); assumption).
    split; [exact Hv|].
    unfold _with_respect_to_value_key. rewrite Hv. reflexivity.
Qed.

(** ** A scheduled pass targets the partition of the object that asked
       for it *)

Section OwnPartition.

Variable get_min_rank : nat -> result string.
Variable increment_rank : string -> nat -> result string.

Lemma reverse_own_key cls self fields vs :
  order_with_respect_to cls = Some fields ->
  _with_respect_to_value cls self = Ok vs ->
  Forall (fun v => contains SEPARATOR_char v = false) vs ->
  exists kw,
    _with_respect_to_kwargs cls self = Ok kw
    /\ reverse_with_respect_to_value_key cls (join SEPARATOR vs) = Ok kw.
Proof.
  intros Hcls Hvs Hsep.
  assert (Hfields : wrt_fields cls = fields)
    by (unfold wrt_fields; rewrite Hcls; reflexivity).
  unfold _with_respect_to_value in Hvs. rewrite Hfields in Hvs.
  destruct (kwargs_loop_total self fields vs ∅ Hvs) as [kw Hkw].
  exists kw. split; [unfold _with_respect_to_kwargs; rewrite Hfields; exact Hkw|].
  unfold reverse_with_respect_to_value_key. rewrite Hcls.
  destruct fields as [|f fs].
  - simpl in *. exact Hkw.
  - assert (Hne : vs <> []).
    { intros ->. apply rmapM_length in Hvs. discriminate. }
    unfold SEPARATOR. rewrite split_join by assumption.
    rewrite <- Hkw. apply (reverse_loop_kwargs_loop self (f :: fs) vs [] ∅ Hvs).
Qed.


End OwnPartition.


(** ** The instance queries on the source as it is *)

(** X21.  On the source as it is, the inline [rebalance], the neighbour
    queries [get_previous_object] and [get_next_object], [_objects_count],
    [rebalancing_required] and [_move_to] all raise before anything is
    written: each goes through [self._model.objects], which raises
    [AttributeError] ([_move_to] through [save], which rolls its write
    back). *)
Theorem instance_queries_raise get_min_rank increment_rank rebalancing_length
    cls now self r db :
  rebalance get_min_rank increment_rank cls src_model_objects self db
  = (Raise AttributeError, db)
  /\ get_previous_object cls src_model_objects self db = (Raise AttributeError, db)
  /\ get_next_object cls src_model_objects self db = (Raise AttributeError, db)
  /\ _objects_count cls src_model_objects self db = (Raise AttributeError, db)
  /\ rebalancing_required rebalancing_length cls src_model_objects self db
     = (Raise AttributeError, db)
  /\ exists e,
       _move_to rebalancing_length cls src_model_objects now self r db
       = (Raise e, db).
Proof.
  repeat (split; [reflexivity|]).
  unfold _move_to, bind.
  destruct (save_src rebalancing_length cls now true (set_rank r self) db) as [e ->].
  eauto.
Qed.

(** ** Passes run on the key an object serialises to *)

Lemma serialises_decodes cls self key :
  serialises cls self key ->
  exists kw,
    reverse_with_respect_to_value_key cls key = Ok kw
    /\ _with_respect_to_kwargs cls self = Ok kw
    /\ matches kw self = true.
Proof.
  intros (fields & vs & Hcls & Hvs & Hsep & Hkey).
  destruct (reverse_own_key cls self fields vs Hcls Hvs Hsep) as (kw & Hkw & Hrev).
  assert (key = join SEPARATOR vs) as ->.
  { unfold _with_respect_to_value_key in Hkey. rewrite Hvs in Hkey.
    simpl in Hkey. congruence. }
  exists kw. split; [exact Hrev|]. split; [exact Hkw|].
  eapply matches_own_kwargs. exact Hkw.
Qed.



Section OwnKeyPasses.

Variable get_min_rank : nat -> result string.
Variable increment_rank : string -> nat -> result string.
Variable cls : ModelClass.

(** C3 (amended).  For an item stored in the table whose serialised
    partition-key components contain no separator, [rebalance_by_scheduled]
    run on that item's key, on a table with distinct primary keys and with
    ranks that can be computed, works on the item's partition of [n] rows:
    it gives the first row in current rank order the increment of
    [get_min_rank n] (not [get_min_rank n] itself) and each later row the
    increment of the rank given to the row before it; the rows of the
    partition are rewritten with exactly these ranks and every other row is
    left alone; and when [increment_rank] increases the ranks it is applied
    to, the new ranks are strictly increasing in the rows' rank order before
    the pass. *)
Theorem rebalance_by_scheduled_ranks self key kw k0 ks db :
  self ∈ items db ->
  serialises cls self key ->
  reverse_with_respect_to_value_key cls key = Ok kw ->
  NoDup (map pk (items db)) ->
  get_min_rank (length (objects_filter kw (items db))) = Ok k0 ->
  rank_chain increment_rank k0 (length (objects_filter kw (items db)))
    (length (objects_filter kw (items db))) = Ok ks ->
  self ∈ objects_filter kw (items db)
  /\ exists db',
      rebalance_by_scheduled get_min_rank increment_rank cls key db = (Ok tt, db')
      /\ scheduled db' = scheduled db
      /\ length ks = length (objects_filter kw (items db))
      /\ (forall k, ks !! 0 = Some k ->
            increment_rank k0 (length (objects_filter kw (items db))) = Ok k)
      /\ (forall i a b, ks !! i = Some a -> ks !! S i = Some b ->
            increment_rank a (length (objects_filter kw (items db))) = Ok b)
      /\ (forall j row, items db !! j = Some row ->
            (matches kw row = false -> items db' !! j = Some row)
            /\ (forall i k,
                  order_by_rank (objects_filter kw (items db)) !! i = Some row ->
                  ks !! i = Some k ->
                  items db' !! j = Some (set_rank k row)))
      /\ ((forall a b, a ∈ ks ->
             increment_rank a (length (objects_filter kw (items db))) = Ok b ->
             String.ltb a b = true) ->
          forall i j ki kj, i < j -> ks !! i = Some ki -> ks !! j = Some kj ->
                            String.ltb ki kj = true).
Proof.
  intros Hin Hser Hkw Hnd Hmin Hks. split.
  - destruct (serialises_decodes _ _ _ Hser) as (kw' & Hkw' & _ & Hm).
    assert (kw' = kw) by congruence. subst kw'.
    apply elem_of_objects_filter. auto.
  - apply rebalance_by_scheduled_assigns; assumption.
Qed.


(** X9.  For an item stored in the table, with distinct primary keys,
    ranks that can be computed and increments that increase the ranks they
    are applied to, a second [rebalance_by_scheduled] on the item's key, run
    on the result of the first, succeeds and changes nothing: the pass is
    idempotent. *)
Theorem rebalance_by_scheduled_idempotent self key kw k0 ks db :
  self ∈ items db ->
  serialises cls self key ->
  reverse_with_respect_to_value_key cls key = Ok kw ->
  NoDup (map pk (items db)) ->
  get_min_rank (length (objects_filter kw (items db))) = Ok k0 ->
  rank_chain increment_rank k0 (length (objects_filter kw (items db)))
    (length (objects_filter kw (items db))) = Ok ks ->
  (forall a b, a ∈ ks ->
     increment_rank a (length (objects_filter kw (items db))) = Ok b ->
     String.ltb a b = true) ->
  rebalance_by_scheduled get_min_rank increment_rank cls key
    (snd (rebalance_by_scheduled get_min_rank increment_rank cls key db))
  = (Ok tt, snd (rebalance_by_scheduled get_min_rank increment_rank cls key db)).
Proof.
  intros _ _ Hkw Hnd Hmin Hks Hinc.
  eapply rebalance_by_scheduled_again; eassumption.
Qed.


End OwnKeyPasses.

(** The card of board 7, column 3 serialises to the key ["7:3"]. *)
Ltac sample_key fields vs :=
  exists fields, vs; repeat split;
  try (vm_compute; reflexivity); repeat constructor.

Lemma rebalance_by_scheduled_ranks_witness :
  exists db',
    rebalance_by_scheduled sample_get_min_rank sample_increment_rank card "7:3"
      sample_cards = (Ok tt, db')
    /\ items db' !! 1 = Some (a_card 2 "b" "7" "3")
    /\ items db' !! 0 = Some (a_card 1 "c" "7" "3")
    /\ items db' !! 2 = Some (a_card 3 "k" "8" "3")
    /\ String.ltb "b" "c" = true.
Proof.
  destruct (rebalance_by_scheduled_ranks
              sample_get_min_rank sample_increment_rank card
              (a_card 2 "q" "7" "3") "7:3" board7_column3 "a" ["b"; "c"]
              sample_cards)
    as (_ & db' & Hrun & _ & _ & _ & _ & Hrows & Hinc).
  - unfold sample_cards. simpl. right. left.
  - sample_key ["board"; "column"] ["7"; "3"].
  - vm_compute. reflexivity.
  - apply (bool_decide_unpack _). vm_compute. exact I.
  - reflexivity.
  - vm_compute. reflexivity.
  - exists db'. split; [exact Hrun|].
    split; [apply (Hrows 1 (a_card 2 "q" "7" "3") eq_refl) with (i := 0);
            vm_compute; reflexivity|].
    split; [apply (Hrows 0 (a_card 1 "x" "7" "3") eq_refl) with (i := 1);
            vm_compute; reflexivity|].
    split; [apply (Hrows 2 (a_card 3 "k" "8" "3") eq_refl); vm_compute; reflexivity|].
    apply (Hinc) with (i := 0) (j := 1); [|lia|reflexivity|reflexivity].
    intros a b Ha Hb.
    apply elem_of_cons in Ha as [->|Ha];
      [|apply elem_of_cons in Ha as [->|Ha]; [|inversion Ha]];
      vm_compute in Hb; injection Hb as <-; reflexivity.
Defined.


Lemma rebalance_by_scheduled_idempotent_witness :
  rebalance_by_scheduled sample_get_min_rank sample_increment_rank card "7:3"
    (snd (rebalance_by_scheduled sample_get_min_rank sample_increment_rank
            card "7:3" sample_cards))
  = (Ok tt,
     snd (rebalance_by_scheduled sample_get_min_rank sample_increment_rank
            card "7:3" sample_cards)).
Proof.
  apply (rebalance_by_scheduled_idempotent
           sample_get_min_rank sample_increment_rank card
           (a_card 2 "q" "7" "3") "7:3" board7_column3 "a" ["b"; "c"] sample_cards).
  - unfold sample_cards. simpl. right. left.
  - sample_key ["board"; "column"] ["7"; "3"].
  - sample_pass.
  - sample_pass.
  - sample_pass.
  - sample_pass.
  - sample_pass.
Defined.

